(** * A fluent HTTP request builder with bounded retry (package [utils])

    Shallow embedding of [http_client.go]: the builder types [Client] and
    [Rest], their chainable setters, and the recursive [send] loop.

    Conventions of the embedding.
    - Go pointers and maps are references into an explicit heap, so that
      "returns the same instance", nil maps and aliased maps are visible.
    - A run-time panic is a result of its own ([Panic]), never an error
      value.
    - Slices are identified with their contents: a nil slice and an empty
      one are both the empty list (the code only ranges over slices and
      appends to them).
    - Go's [int] and [time.Duration] are [Z]; the only arithmetic the code
      does on them is [attempts - 1] under the guard [attempts > 0], which
      cannot wrap.
    - The standard library ([net/url], [net/http], [io/ioutil], [time]) is
      not part of the repository.  What the code relies on is modelled from
      the library's documented behaviour ([url.Values], [Values.Encode],
      [QueryEscape], [http.NewRequest], map semantics); what depends on the
      outside world (URL parsing, the network round trip) is a parameter,
      the class [World]. *)

From Stdlib Require Import ZArith Ascii String.
From Stdlib.Strings Require Byte.
From stdpp Require Import gmap strings list fin_maps sorting pretty.
From Equations Require Import Equations.

Local Open Scope Z_scope.

(** ** Go run-time values *)

(** A value of type [interface{}], as far as [fmt.Sprintf("%v", _)] tells
    values apart. *)
Inductive any : Type :=
  | AString (s : string)
  | AInt (z : Z)
  | ABool (b : bool)
  | ANil.

(** [fmt.Sprintf("%v", value)]. *)
Definition Sprintf_v (value : any) : string :=
  match value with
  | AString s => s
  | AInt z => pretty z
  | ABool true => "true"
  | ABool false => "false"
  | ANil => "<nil>"
  end.

(** A non-nil [error]; the interface value is [option error], [None] being
    nil. *)
Inductive error : Type :=
  | ErrMsg (msg : string)
  | ErrWrap (cause : error) (message : string).

(** [errors.Wrap] of github.com/pkg/errors: nil stays nil. *)
Definition errors_Wrap (err : option error) (message : string) : option error :=
  match err with
  | None => None
  | Some e => Some (ErrWrap e message)
  end.

(** Outcome of a computation that may panic. *)
Inductive Res (A : Type) : Type :=
  | Ok (a : A)
  | Panic (msg : string).
Arguments Ok {A} a.
Arguments Panic {A} msg.

Definition rbind {A B} (r : Res A) (k : A -> Res B) : Res B :=
  match r with
  | Ok a => k a
  | Panic msg => Panic msg
  end.

Definition nil_map_panic : string := "assignment to entry in nil map".
Definition nil_deref_panic : string :=
  "invalid memory address or nil pointer dereference".

(** ** The heap: structs and maps are reached through references *)

Abbreviation loc := positive (only parsing).

Record Heap (T : Type) : Type := mkHeap {
  structs : gmap loc T;
  strmaps : gmap loc (gmap string string);
  lstmaps : gmap loc (gmap string (list string))
}.
Arguments mkHeap {T} _ _ _.
Arguments structs {T} _.
Arguments strmaps {T} _.
Arguments lstmaps {T} _.

(** State-and-panic monad over the heap. *)
Definition M (T A : Type) : Type := Heap T -> Res (A * Heap T).

Definition ret {T A} (a : A) : M T A := fun h => Ok (a, h).

Definition bind {T A B} (m : M T A) (k : A -> M T B) : M T B :=
  fun h =>
    match m h with
    | Ok (a, h') => k a h'
    | Panic msg => Panic msg
    end.

Declare Scope go_scope.
Delimit Scope go_scope with go.
Notation "x <- m ;; k" := (bind m (fun x => k))
  (at level 100, m at next level, right associativity) : go_scope.
Notation "m ;;; k" := (bind m (fun _ => k))
  (at level 100, right associativity) : go_scope.
Notation "x <-! r ;; k" := (rbind r (fun x => k))
  (at level 100, r at next level, right associativity) : go_scope.

(** [*c]: reading through a pointer; nil (an unallocated reference)
    panics. *)
Definition deref {T} (c : loc) : M T T :=
  fun h =>
    match structs h !! c with
    | Some b => Ok (b, h)
    | None => Panic nil_deref_panic
    end.

(** [*c = b]. *)
Definition store {T} (c : loc) (b : T) : M T unit :=
  fun h =>
    match structs h !! c with
    | Some _ => Ok (tt, mkHeap (<[c := b]> (structs h)) (strmaps h) (lstmaps h))
    | None => Panic nil_deref_panic
    end.

(** [make(map[string]string)]. *)
Definition make_strmap {T} : M T loc :=
  fun h =>
    let m := fresh (dom (strmaps h)) in
    Ok (m, mkHeap (structs h) (<[m := ∅]> (strmaps h)) (lstmaps h)).

(** [make(map[string][]string)]. *)
Definition make_lstmap {T} : M T loc :=
  fun h =>
    let m := fresh (dom (lstmaps h)) in
    Ok (m, mkHeap (structs h) (strmaps h) (<[m := ∅]> (lstmaps h))).

(** [&T{...}]. *)
Definition alloc {T} (b : T) : M T loc :=
  fun h =>
    let c := fresh (dom (structs h)) in
    Ok (c, mkHeap (<[c := b]> (structs h)) (strmaps h) (lstmaps h)).

(** The contents a map reference stands for; a nil map (and a reference
    to nothing) reads as the empty map. *)
Definition lst_contents {T} (h : Heap T) (m : option loc)
  : gmap string (list string) :=
  match m with
  | Some l => default ∅ (lstmaps h !! l)
  | None => ∅
  end.

Definition str_contents {T} (h : Heap T) (m : option loc)
  : gmap string string :=
  match m with
  | Some l => default ∅ (strmaps h !! l)
  | None => ∅
  end.

(** [m[name]] on a [map[string][]string]: the zero value (nil slice) for a
    missing key, also on a nil map. *)
Definition lst_index {T} (m : option loc) (name : string) : M T (list string) :=
  fun h => Ok (default [] (lst_contents h m !! name), h).

(** [m[name] = v] on a [map[string][]string]: panics on a nil map. *)
Definition lst_assign {T} (m : option loc) (name : string) (v : list string)
  : M T unit :=
  fun h =>
    match m with
    | None => Panic nil_map_panic
    | Some l =>
        match lstmaps h !! l with
        | None => Panic nil_map_panic
        | Some g =>
            Ok (tt, mkHeap (structs h) (strmaps h)
                      (<[l := <[name := v]> g]> (lstmaps h)))
        end
    end.

(** [m[name] = v] on a [map[string]string]: panics on a nil map. *)
Definition str_assign {T} (m : option loc) (name : string) (v : string)
  : M T unit :=
  fun h =>
    match m with
    | None => Panic nil_map_panic
    | Some l =>
        match strmaps h !! l with
        | None => Panic nil_map_panic
        | Some g =>
            Ok (tt, mkHeap (structs h) (<[l := <[name := v]> g]> (strmaps h))
                      (lstmaps h))
        end
    end.

(** [for name, values := range m]: the entries of a map.  Go leaves the
    order unspecified; the embedding enumerates in the order of
    [map_to_list], and the theorems on the query string hold for every
    order. *)
Definition range_map {V} (m : gmap string V) : list (string * V) :=
  map_to_list m.

(** ** Model of [net/url] *)

(** [url.Values], a [map[string][]string]; [None] is the nil map. *)
Abbreviation url_Values := (option (gmap string (list string))) (only parsing).

(** [Values.Add]: [v[key] = append(v[key], value)]; assigning into a nil
    map panics. *)
Definition url_Values_Add (v : url_Values) (key value : string)
  : Res url_Values :=
  match v with
  | None => Panic nil_map_panic
  | Some m => Ok (Some (<[key := default [] (m !! key) ++ [value]]> m))
  end.

Definition upperhex : string := "0123456789ABCDEF".

Definition hex_digit (n : N) : ascii :=
  default "0"%char (String.get (N.to_nat n) upperhex).

Definition in_range (lo hi c : ascii) : bool :=
  (N_of_ascii lo <=? N_of_ascii c)%N && (N_of_ascii c <=? N_of_ascii hi)%N.

(** [shouldEscape(c, encodeQueryComponent)]: everything but the unreserved
    characters of RFC 3986 is escaped. *)
Definition shouldEscape (c : ascii) : bool :=
  if in_range "a" "z" c || in_range "A" "Z" c || in_range "0" "9" c then false
  else if bool_decide (c ∈ ["-"; "_"; "."; "~"]%char) then false
  else true.

Definition escape_byte (c : ascii) : string :=
  if bool_decide (c = " "%char) then "+"
  else if shouldEscape c then
    String "%" (String (hex_digit (N_of_ascii c / 16))
                  (String (hex_digit (N_of_ascii c mod 16)) ""))
  else String c "".

(** [url.QueryEscape]. *)
Fixpoint url_QueryEscape (s : string) : string :=
  match s with
  | EmptyString => ""
  | String c s' => escape_byte c +:+ url_QueryEscape s'
  end.

(** One round of the inner loop of [Values.Encode]: an ampersand unless
    the buffer is empty, then [key=value], both escaped. *)
Definition encode_pair (keyEscaped : string) (buf v : string) : string :=
  (if bool_decide (buf = "") then buf else buf +:+ "&")
    +:+ keyEscaped +:+ "=" +:+ url_QueryEscape v.

(** [Values.Encode]: keys sorted, the values of a key in their order.
    [slices.Sort] on a [[]string] sorts by Go's [<] on [string], the byte
    order; that is [String.le]. *)
Definition url_Values_Encode (v : url_Values) : string :=
  match v with
  | None => ""
  | Some m =>
      if bool_decide (size m = 0%nat) then ""
      else
        let keys := merge_sort String.le (fst <$> range_map m) in
        foldl (fun buf k =>
                 let vs := default [] (m !! k) in
                 let keyEscaped := url_QueryEscape k in
                 foldl (encode_pair keyEscaped) buf vs)
              "" keys
  end.

(** ** Model of [net/http] *)

(** [http.Header] is a [map[string][]string] as well. *)
Abbreviation http_Header := (option (gmap string (list string))) (only parsing).

(** [*http.Request], the fields the code touches.  The URL is kept in its
    textual form. *)
Record http_Request : Type := mkRequest {
  req_Method : string;
  req_URL : string;
  req_Header : http_Header;
  req_Form : url_Values;
  req_Body : list Byte.byte
}.

(** The body stream of a response, as what draining it gives. *)
Record BodyStream : Type := mkBody {
  stream_data : list Byte.byte;
  stream_err : option error
}.

(** [ioutil.ReadAll]. *)
Definition ioutil_ReadAll (r : BodyStream) : list Byte.byte * option error :=
  (stream_data r, stream_err r).

(** [*http.Response]. *)
Record http_Response : Type := mkHttpResponse {
  res_StatusCode : Z;
  res_Header : gmap string (list string);
  res_Body : BodyStream
}.

(** What [Do] of [http.Client] returns.  Its contract is in the type: with a
    nil error the response is non-nil; with an error, a response may come
    along (a failed redirect policy) and the code ignores it. *)
Inductive DoResult : Type :=
  | DoDone (res : http_Response)
  | DoFail (res : option http_Response) (err : error).

(** [httpguts.IsTokenRune] on a byte. *)
Definition isToken (c : ascii) : bool :=
  in_range "a" "z" c || in_range "A" "Z" c || in_range "0" "9" c
  || bool_decide (c ∈ ["!"; "#"; "$"; "%"; "&"; "'"; "*"; "+"; "-"; ".";
                       "^"; "_"; "`"; "|"; "~"]%char).

(** [validMethod]: non-empty and made of token characters. *)
Definition validMethod (method : string) : bool :=
  negb (bool_decide (method = ""))
  && forallb isToken (list_ascii_of_string method).

(** The outside world: URL parsing and printing, header canonicalisation
    and the transport.  [client_Do n req timeout] is the outcome of the
    round trip number [n] (from 0) of a call of [Send]. *)
Class World : Type := {
  URL : Type;
  url_Parse : string -> error + URL;
  URL_setRawQuery : URL -> string -> URL;
  URL_String : URL -> string;
  CanonicalMIMEHeaderKey : string -> string;
  client_Do : nat -> http_Request -> Z -> DoResult
}.

Section NetHttp.
Context {W : World}.

(** [Header.Add]: the key is canonicalised, the value appended. *)
Definition http_Header_Add (hd : http_Header) (key value : string)
  : Res http_Header :=
  url_Values_Add hd (CanonicalMIMEHeaderKey key) value.

(** [http.NewRequest]: an empty method is GET; an invalid method or a URL
    that does not parse is an error; the request starts with an empty
    (non-nil) header map and a nil [Form]. *)
Definition http_NewRequest (method url : string) (body : list Byte.byte)
  : error + http_Request :=
  let method := if bool_decide (method = "") then "GET" else method in
  if negb (validMethod method) then
    inl (ErrMsg ("net/http: invalid method " +:+ method))
  else
    match url_Parse url with
    | inl err => inl err
    | inr _ => inr (mkRequest method url (Some ∅) None body)
    end.
End NetHttp.

(** ** Shared by both builders *)

(** The package's [Response]. *)
Record Response : Type := mkResponse {
  StatusCode : Z;
  Header : gmap string (list string);
  Body : string
}.

(** What a call of [Send] does to the outside, in order. *)
Inductive Event : Type :=
  | EvDo (req : http_Request) (timeout : Z)
  | EvRule (response : option Response) (err : option error)
  | EvSleep (d : Z).

(** The two nested [range] loops of [send]: every value of every entry is
    added under the entry's name ([add_values] is the inner loop). *)
Definition add_values (addf : url_Values -> string -> string -> Res url_Values)
    (name : string) (values : list string) (acc : Res url_Values)
  : Res url_Values :=
  foldl (fun acc value => rbind acc (fun q => addf q name value)) acc values.

Definition add_entries (addf : url_Values -> string -> string -> Res url_Values)
    (entries : list (string * list string)) (v : url_Values) : Res url_Values :=
  foldl (fun acc entry => add_values addf entry.1 entry.2 acc) (Ok v) entries.

(** The outcome of [send]: the events, then a return or a panic. *)
Abbreviation Outcome :=
  (list Event * Res (option Response * option error))%type (only parsing).

Definition after (evs : list Event) (o : Outcome) : Outcome :=
  (evs ++ o.1, o.2).

(** ** The builder [Client] (first source file) *)

Module HttpClient.

(** What a retry rule can see of the builder it is handed: the fields,
    maps by their contents ([None] for a nil map).  A rule is a pure
    observer: it does not write to the builder. *)
Record View : Type := mkView {
  v_method : string;
  v_url : string;
  v_timeout : Z;
  v_retryAttempts : Z;
  v_retryDelay : Z;
  v_param : option (gmap string string);
  v_query : url_Values;
  v_header : url_Values;
  v_form : url_Values;
  v_body : list Byte.byte;
  v_records : any
}.

Definition RuleF : Type := View -> option Response -> option error -> bool.

(** The struct.  Map fields hold references ([None]: nil map); a nil
    [retryRuleF] is [None]. *)
Record Client : Type := mkClient {
  method : string;
  url : string;
  timeout : Z;
  retryAttempts : Z;
  retryDelay : Z;
  retryRuleF : option RuleF;
  param : option loc;
  query : option loc;
  header : option loc;
  form : option loc;
  body : list Byte.byte;
  records : any
}.

Definition set_timeout (v : Z) (b : Client) : Client :=
  mkClient (method b) (url b) v (retryAttempts b) (retryDelay b)
    (retryRuleF b) (param b) (query b) (header b) (form b) (body b)
    (records b).
Definition set_retry (a d : Z) (f : option RuleF) (b : Client) : Client :=
  mkClient (method b) (url b) (timeout b) a d f (param b) (query b)
    (header b) (form b) (body b) (records b).
Definition set_param (v : option loc) (b : Client) : Client :=
  mkClient (method b) (url b) (timeout b) (retryAttempts b) (retryDelay b)
    (retryRuleF b) v (query b) (header b) (form b) (body b) (records b).
Definition set_query (v : option loc) (b : Client) : Client :=
  mkClient (method b) (url b) (timeout b) (retryAttempts b) (retryDelay b)
    (retryRuleF b) (param b) v (header b) (form b) (body b) (records b).
Definition set_header (v : option loc) (b : Client) : Client :=
  mkClient (method b) (url b) (timeout b) (retryAttempts b) (retryDelay b)
    (retryRuleF b) (param b) (query b) v (form b) (body b) (records b).
Definition set_form (v : option loc) (b : Client) : Client :=
  mkClient (method b) (url b) (timeout b) (retryAttempts b) (retryDelay b)
    (retryRuleF b) (param b) (query b) (header b) v (body b) (records b).
Definition set_body (v : list Byte.byte) (b : Client) : Client :=
  mkClient (method b) (url b) (timeout b) (retryAttempts b) (retryDelay b)
    (retryRuleF b) (param b) (query b) (header b) (form b) v (records b).
Definition set_records (v : any) (b : Client) : Client :=
  mkClient (method b) (url b) (timeout b) (retryAttempts b) (retryDelay b)
    (retryRuleF b) (param b) (query b) (header b) (form b) (body b) v.

Definition lst_view (h : Heap Client) (m : option loc) : url_Values :=
  match m with
  | Some l => lstmaps h !! l
  | None => None
  end.

Definition view (h : Heap Client) (b : Client) : View :=
  mkView (method b) (url b) (timeout b) (retryAttempts b) (retryDelay b)
    (match param b with Some l => strmaps h !! l | None => None end)
    (lst_view h (query b)) (lst_view h (header b)) (lst_view h (form b))
    (body b) (records b).

Local Open Scope go_scope.

(** [NewRest]: timeout 2 s (in nanoseconds), no retry, no rule, four
    fresh empty maps, nil body and records. *)
Definition NewRest (method url : string) : M Client loc :=
  param <- make_strmap ;;
  query <- make_lstmap ;;
  header <- make_lstmap ;;
  form <- make_lstmap ;;
  alloc (mkClient method url (2 * 1000000000) 0 0 None
           (Some param) (Some query) (Some header) (Some form) [] ANil).

(** [add]: the values rendered with [%v], appended in order. *)
Definition add (current : list string) (values : list any) : list string :=
  foldl (fun current value => current ++ [Sprintf_v value]) current values.

Definition Timeout (c : loc) (timeout : Z) : M Client loc :=
  b <- deref c ;;
  store c (set_timeout timeout b) ;;;
  ret c.

Definition Retry (c : loc) (attempts delay : Z) (ruleF : option RuleF)
  : M Client loc :=
  b <- deref c ;;
  store c (set_retry attempts delay ruleF b) ;;;
  ret c.

Definition Param (c : loc) (param : option loc) : M Client loc :=
  b <- deref c ;;
  store c (set_param param b) ;;;
  ret c.

Definition AddParam (c : loc) (name : string) (value : any) : M Client loc :=
  b <- deref c ;;
  str_assign (param b) name (Sprintf_v value) ;;;
  ret c.

Definition Query (c : loc) (query : option loc) : M Client loc :=
  b <- deref c ;;
  store c (set_query query b) ;;;
  ret c.

Definition AddQuery (c : loc) (name : string) (value : list any)
  : M Client loc :=
  b <- deref c ;;
  current <- lst_index (query b) name ;;
  lst_assign (query b) name (add current value) ;;;
  ret c.

Definition Header (c : loc) (header : option loc) : M Client loc :=
  b <- deref c ;;
  store c (set_header header b) ;;;
  ret c.

Definition AddHeader (c : loc) (name : string) (value : list any)
  : M Client loc :=
  b <- deref c ;;
  current <- lst_index (header b) name ;;
  lst_assign (header b) name (add current value) ;;;
  ret c.

Definition Form (c : loc) (form : option loc) : M Client loc :=
  b <- deref c ;;
  store c (set_form form b) ;;;
  ret c.

Definition AddForm (c : loc) (name : string) (value : list any)
  : M Client loc :=
  b <- deref c ;;
  current <- lst_index (form b) name ;;
  lst_assign (form b) name (add current value) ;;;
  ret c.

Definition Body (c : loc) (body : list Byte.byte) : M Client loc :=
  b <- deref c ;;
  store c (set_body body b) ;;;
  ret c.

Definition Records (c : loc) (records : any) : M Client loc :=
  b <- deref c ;;
  store c (set_records records b) ;;;
  ret c.

Section Sending.
Context {W : World}.

(** What the first half of [send] (lines 128-158) ends in: an early
    return, or the request to hand to the transport. *)
Inductive Assembled : Type :=
  | EarlyReturn (response : option Response) (err : option error)
  | Ready (req : http_Request).

(** Lines 128-158: parse the URL, encode the query, build the request,
    add the headers, add the form values. *)
Definition assemble (h : Heap Client) (b : Client) : Res Assembled :=
  match url_Parse (url b) with
  | inl err => Ok (EarlyReturn None (errors_Wrap (Some err) "url.Parse"))
  | inr urlParsed =>
      query <-! add_entries url_Values_Add
                  (range_map (lst_contents h (query b))) (Some ∅) ;;
      let urlParsed := URL_setRawQuery urlParsed (url_Values_Encode query) in
      match http_NewRequest (method b) (URL_String urlParsed) (body b) with
      | inl err =>
          Ok (EarlyReturn None (errors_Wrap (Some err) "http.NewRequest"))
      | inr req =>
          hd <-! add_entries http_Header_Add
                   (range_map (lst_contents h (header b))) (req_Header req) ;;
          fm <-! add_entries url_Values_Add
                   (range_map (lst_contents h (form b))) (req_Form req) ;;
          Ok (Ready (mkRequest (req_Method req) (req_URL req) hd fm
                       (req_Body req)))
      end
  end.

(** Lines 160-190: one round trip and the draining of the body. *)
Definition attempt (calls : nat) (req : http_Request) (timeout : Z)
  : option Response * option error :=
  match client_Do calls req timeout with
  | DoFail _ responseErr => (None, Some responseErr)
  | DoDone res =>
      match ioutil_ReadAll (res_Body res) with
      | (_, Some responseErr) => (None, Some responseErr)
      | (body, None) =>
          (Some (mkResponse (res_StatusCode res) (res_Header res)
                   (string_of_list_byte body)), None)
      end
  end.

(** [send]; [calls] counts the round trips made so far. *)
Equations? send (h : Heap Client) (c : loc) (attempts : Z) (calls : nat)
  : Outcome by wf (Z.to_nat attempts) lt :=
  send h c attempts calls with structs h !! c => {
    | None := ([], Panic nil_deref_panic)
    | Some b with assemble h b => {
      | Panic msg := ([], Panic msg)
      | Ok (EarlyReturn response err) := ([], Ok (response, err))
      | Ok (Ready req) with attempt calls req (timeout b) => {
        | (response, responseErr) with Z_gt_dec attempts 0 => {
          | right _ :=
              ([EvDo req (timeout b)], Ok (response, responseErr))
          | left _ with retryRuleF b => {
            | None := ([EvDo req (timeout b)], Panic nil_deref_panic)
            | Some ruleF with ruleF (view h b) response responseErr => {
              | false :=
                  ([EvDo req (timeout b); EvRule response responseErr],
                   Ok (response, responseErr))
              | true :=
                  after [EvDo req (timeout b);
                         EvRule response responseErr;
                         EvSleep (retryDelay b)]
                        (send h c (attempts - 1) (S calls)) } } } } } }.
Proof. lia. Qed.

(** [Send]. *)
Definition Send (h : Heap Client) (c : loc) : Outcome :=
  match structs h !! c with
  | None => ([], Panic nil_deref_panic)
  | Some b => send h c (retryAttempts b) 0
  end.
End Sending.

End HttpClient.

(** ** The builder [Rest] (second source file) *)

Module HttpRest.

(** What a retry rule can see of the builder it is handed: the fields,
    maps by their contents ([None] for a nil map).  A rule is a pure
    observer: it does not write to the builder. *)
Record View : Type := mkView {
  v_method : string;
  v_url : string;
  v_timeout : Z;
  v_retryAttempts : Z;
  v_retryDelay : Z;
  v_param : option (gmap string string);
  v_query : url_Values;
  v_header : url_Values;
  v_form : url_Values;
  v_body : list Byte.byte;
  v_records : any
}.

Definition RuleF : Type := View -> option Response -> option error -> bool.

(** The struct.  Map fields hold references ([None]: nil map); a nil
    [retryRuleF] is [None]. *)
Record Rest : Type := mkRest {
  method : string;
  url : string;
  timeout : Z;
  retryAttempts : Z;
  retryDelay : Z;
  retryRuleF : option RuleF;
  param : option loc;
  query : option loc;
  header : option loc;
  form : option loc;
  body : list Byte.byte;
  records : any
}.

Definition set_timeout (v : Z) (b : Rest) : Rest :=
  mkRest (method b) (url b) v (retryAttempts b) (retryDelay b)
    (retryRuleF b) (param b) (query b) (header b) (form b) (body b)
    (records b).
Definition set_retry (a d : Z) (f : option RuleF) (b : Rest) : Rest :=
  mkRest (method b) (url b) (timeout b) a d f (param b) (query b)
    (header b) (form b) (body b) (records b).
Definition set_param (v : option loc) (b : Rest) : Rest :=
  mkRest (method b) (url b) (timeout b) (retryAttempts b) (retryDelay b)
    (retryRuleF b) v (query b) (header b) (form b) (body b) (records b).
Definition set_query (v : option loc) (b : Rest) : Rest :=
  mkRest (method b) (url b) (timeout b) (retryAttempts b) (retryDelay b)
    (retryRuleF b) (param b) v (header b) (form b) (body b) (records b).
Definition set_header (v : option loc) (b : Rest) : Rest :=
  mkRest (method b) (url b) (timeout b) (retryAttempts b) (retryDelay b)
    (retryRuleF b) (param b) (query b) v (form b) (body b) (records b).
Definition set_form (v : option loc) (b : Rest) : Rest :=
  mkRest (method b) (url b) (timeout b) (retryAttempts b) (retryDelay b)
    (retryRuleF b) (param b) (query b) (header b) v (body b) (records b).
Definition set_body (v : list Byte.byte) (b : Rest) : Rest :=
  mkRest (method b) (url b) (timeout b) (retryAttempts b) (retryDelay b)
    (retryRuleF b) (param b) (query b) (header b) (form b) v (records b).
Definition set_records (v : any) (b : Rest) : Rest :=
  mkRest (method b) (url b) (timeout b) (retryAttempts b) (retryDelay b)
    (retryRuleF b) (param b) (query b) (header b) (form b) (body b) v.

Definition lst_view (h : Heap Rest) (m : option loc) : url_Values :=
  match m with
  | Some l => lstmaps h !! l
  | None => None
  end.

Definition view (h : Heap Rest) (b : Rest) : View :=
  mkView (method b) (url b) (timeout b) (retryAttempts b) (retryDelay b)
    (match param b with Some l => strmaps h !! l | None => None end)
    (lst_view h (query b)) (lst_view h (header b)) (lst_view h (form b))
    (body b) (records b).

Local Open Scope go_scope.

(** [NewRest]: timeout 2 s (in nanoseconds), no retry, no rule, four
    fresh empty maps, nil body and records. *)
Definition NewRest (method url : string) : M Rest loc :=
  param <- make_strmap ;;
  query <- make_lstmap ;;
  header <- make_lstmap ;;
  form <- make_lstmap ;;
  alloc (mkRest method url (2 * 1000000000) 0 0 None
           (Some param) (Some query) (Some header) (Some form) [] ANil).

(** [add]: the values rendered with [%v], appended in order. *)
Definition add (current : list string) (values : list any) : list string :=
  foldl (fun current value => current ++ [Sprintf_v value]) current values.

Definition Timeout (r : loc) (timeout : Z) : M Rest loc :=
  b <- deref r ;;
  store r (set_timeout timeout b) ;;;
  ret r.

Definition Retry (r : loc) (attempts delay : Z) (ruleF : option RuleF)
  : M Rest loc :=
  b <- deref r ;;
  store r (set_retry attempts delay ruleF b) ;;;
  ret r.

Definition Param (r : loc) (param : option loc) : M Rest loc :=
  b <- deref r ;;
  store r (set_param param b) ;;;
  ret r.

Definition AddParam (r : loc) (name : string) (value : any) : M Rest loc :=
  b <- deref r ;;
  str_assign (param b) name (Sprintf_v value) ;;;
  ret r.

Definition Query (r : loc) (query : option loc) : M Rest loc :=
  b <- deref r ;;
  store r (set_query query b) ;;;
  ret r.

Definition AddQuery (r : loc) (name : string) (value : list any)
  : M Rest loc :=
  b <- deref r ;;
  current <- lst_index (query b) name ;;
  lst_assign (query b) name (add current value) ;;;
  ret r.

Definition Header (r : loc) (header : option loc) : M Rest loc :=
  b <- deref r ;;
  store r (set_header header b) ;;;
  ret r.

Definition AddHeader (r : loc) (name : string) (value : list any)
  : M Rest loc :=
  b <- deref r ;;
  current <- lst_index (header b) name ;;
  lst_assign (header b) name (add current value) ;;;
  ret r.

Definition Form (r : loc) (form : option loc) : M Rest loc :=
  b <- deref r ;;
  store r (set_form form b) ;;;
  ret r.

Definition AddForm (r : loc) (name : string) (value : list any)
  : M Rest loc :=
  b <- deref r ;;
  current <- lst_index (form b) name ;;
  lst_assign (form b) name (add current value) ;;;
  ret r.

Definition Body (r : loc) (body : list Byte.byte) : M Rest loc :=
  b <- deref r ;;
  store r (set_body body b) ;;;
  ret r.

Definition Records (r : loc) (records : any) : M Rest loc :=
  b <- deref r ;;
  store r (set_records records b) ;;;
  ret r.

Section Sending.
Context {W : World}.

(** What the first half of [send] (lines 128-158) ends in: an early
    return, or the request to hand to the transport. *)
Inductive Assembled : Type :=
  | EarlyReturn (response : option Response) (err : option error)
  | Ready (req : http_Request).

(** Lines 128-158: parse the URL, encode the query, build the request,
    add the headers, add the form values. *)
Definition assemble (h : Heap Rest) (b : Rest) : Res Assembled :=
  match url_Parse (url b) with
  | inl err => Ok (EarlyReturn None (errors_Wrap (Some err) "url.Parse"))
  | inr urlParsed =>
      query <-! add_entries url_Values_Add
                  (range_map (lst_contents h (query b))) (Some ∅) ;;
      let urlParsed := URL_setRawQuery urlParsed (url_Values_Encode query) in
      match http_NewRequest (method b) (URL_String urlParsed) (body b) with
      | inl err =>
          Ok (EarlyReturn None (errors_Wrap (Some err) "http.NewRequest"))
      | inr req =>
          hd <-! add_entries http_Header_Add
                   (range_map (lst_contents h (header b))) (req_Header req) ;;
          fm <-! add_entries url_Values_Add
                   (range_map (lst_contents h (form b))) (req_Form req) ;;
          Ok (Ready (mkRequest (req_Method req) (req_URL req) hd fm
                       (req_Body req)))
      end
  end.

(** Lines 160-190: one round trip and the draining of the body. *)
Definition attempt (calls : nat) (req : http_Request) (timeout : Z)
  : option Response * option error :=
  match client_Do calls req timeout with
  | DoFail _ responseErr => (None, Some responseErr)
  | DoDone res =>
      match ioutil_ReadAll (res_Body res) with
      | (_, Some responseErr) => (None, Some responseErr)
      | (body, None) =>
          (Some (mkResponse (res_StatusCode res) (res_Header res)
                   (string_of_list_byte body)), None)
      end
  end.

(** [send]; [calls] counts the round trips made so far. *)
Equations? send (h : Heap Rest) (r : loc) (attempts : Z) (calls : nat)
  : Outcome by wf (Z.to_nat attempts) lt :=
  send h r attempts calls with structs h !! r => {
    | None := ([], Panic nil_deref_panic)
    | Some b with assemble h b => {
      | Panic msg := ([], Panic msg)
      | Ok (EarlyReturn response err) := ([], Ok (response, err))
      | Ok (Ready req) with attempt calls req (timeout b) => {
        | (response, responseErr) with Z_gt_dec attempts 0 => {
          | right _ :=
              ([EvDo req (timeout b)], Ok (response, responseErr))
          | left _ with retryRuleF b => {
            | None := ([EvDo req (timeout b)], Panic nil_deref_panic)
            | Some ruleF with ruleF (view h b) response responseErr => {
              | false :=
                  ([EvDo req (timeout b); EvRule response responseErr],
                   Ok (response, responseErr))
              | true :=
                  after [EvDo req (timeout b);
                         EvRule response responseErr;
                         EvSleep (retryDelay b)]
                        (send h r (attempts - 1) (S calls)) } } } } } }.
Proof. lia. Qed.

(** [Send]. *)
Definition Send (h : Heap Rest) (r : loc) : Outcome :=
  match structs h !! r with
  | None => ([], Panic nil_deref_panic)
  | Some b => send h r (retryAttempts b) 0
  end.
End Sending.

End HttpRest.

(** ** A scripted world, for running the code on concrete inputs *)

(** [stringContainsCTLByte] of [net/url]: a byte below space, or DEL. *)
Definition stringContainsCTLByte (s : string) : bool :=
  existsb (fun c => (N_of_ascii c <? 32)%N || (N_of_ascii c =? 127)%N)
          (list_ascii_of_string s).

(** The text before the first question mark, and the text after it. *)
Fixpoint cut_query (s : string) : string * string :=
  match s with
  | EmptyString => ("", "")
  | String c s' =>
      if bool_decide (c = "?"%char) then ("", s')
      else let '(p, q) := cut_query s' in (String c p, q)
  end.

(** A world whose transport answers from a script: round trip [n] gets the
    [n]-th entry, and a refused connection past its end.  Parsing rejects
    what [url.Parse] rejects first, a control byte, and otherwise splits
    the query off; header names are left as they are. *)
Definition scripted (script : list DoResult) : World := {|
  URL := string * string;
  url_Parse s :=
    if stringContainsCTLByte s
    then inl (ErrMsg "net/url: invalid control character in URL")
    else inr (cut_query s);
  URL_setRawQuery u q := (u.1, q);
  URL_String u := if bool_decide (u.2 = "") then u.1 else u.1 +:+ "?" +:+ u.2;
  CanonicalMIMEHeaderKey k := k;
  client_Do n _ _ :=
    default (DoFail None (ErrMsg "connection refused")) (script !! n)
|}.

(** A successful round trip with the given status and body. *)
Definition answer (status : Z) (body : list Byte.byte) : DoResult :=
  DoDone (mkHttpResponse status ∅ (mkBody body None)).

(** The empty heap. *)
Definition no_heap {T} : Heap T := mkHeap ∅ ∅ ∅.

(** Running a chain of builder calls from the empty heap. *)
Definition run {T A} (m : M T A) : Res (A * Heap T) := m no_heap.

(** ** Measures on what a call of [Send] did *)

Definition is_do (e : Event) : bool :=
  match e with EvDo _ _ => true | _ => false end.

Definition is_rule (e : Event) : bool :=
  match e with EvRule _ _ => true | _ => false end.

(** Number of transport calls. *)
Definition transport_calls (t : list Event) : nat :=
  length (List.filter is_do t).

(** Number of invocations of the retry rule. *)
Definition rule_calls (t : list Event) : nat :=
  length (List.filter is_rule t).

(** The sleeps, in order, each with its duration. *)
Definition sleeps (t : list Event) : list Z :=
  omap (fun e => match e with EvSleep d => Some d | _ => None end) t.

(** A map without a single value: no key, or keys with empty lists. *)
Definition no_values (m : gmap string (list string)) : Prop :=
  map_Forall (fun _ vs => vs = []) m.


(** A builder call chain run from the empty heap, then [Send]. *)
Definition send_after (W : World) (m : M HttpClient.Client loc)
  : Res Outcome :=
  match run m with
  | Ok (c, h) => Ok (HttpClient.Send h c)
  | Panic msg => Panic msg
  end.

(** A URL with a control byte (DEL) in it. *)
Definition ctl_url : string :=
  "http://example.test/" +:+ String (ascii_of_nat 127) "".

(** The rule that always asks for another try. *)
Definition always : HttpClient.RuleF := fun _ _ _ => true.

(** The rule that asks for another try as long as there is an error. *)
Definition on_error : HttpClient.RuleF :=
  fun _ _ err => bool_decide (err <> None).

(** ** The query string, in the words of the specification *)

(** The buffer of [Encode] after more pieces: an ampersand before each
    piece but the very first. *)
Definition join_onto (buf : string) (pieces : list string) : string :=
  foldl (fun buf p => (if bool_decide (buf = "") then buf else buf +:+ "&")
                        +:+ p) buf pieces.

(** What [send] hands to [Encode]: the entries of the query map that have
    a value at all. *)
Definition query_values (q : gmap string (list string))
  : gmap string (list string) :=
  filter (fun kv => kv.2 <> []) q.

(** One [key=value] pair per value: keys in sorted order, the values of a
    key in the order they were supplied, both escaped. *)
Definition spec_query_pairs (q : gmap string (list string)) : list string :=
  k ← merge_sort String.le (fst <$> map_to_list q);
  (fun v => url_QueryEscape k +:+ "=" +:+ url_QueryEscape v)
    <$> default [] (q !! k).

(** The pairs, joined by ampersands. *)
Definition spec_query_string (q : gmap string (list string)) : string :=
  String.concat "&" (spec_query_pairs q).

(** The URL string [send] builds from a parsed URL and the query map. *)
Definition built_url {W : World} (q : gmap string (list string)) (u : URL)
  : string :=
  URL_String (URL_setRawQuery u (spec_query_string q)).

(** ** Concrete builders *)

Definition heap_of {T} (m : M T loc) : Heap T :=
  match run m with
  | Ok (_, h) => h
  | Panic _ => no_heap
  end.

Definition ptr_of {T} (m : M T loc) : loc :=
  match run m with
  | Ok (c, _) => c
  | Panic _ => 1%positive
  end.

Local Open Scope go_scope.

(** [NewRest("GET", "https://example.test/items").AddQuery("id", 42)
      .Timeout(500 * time.Millisecond)] *)
Definition items_chain : M HttpClient.Client loc :=
  c <- HttpClient.NewRest "GET" "https://example.test/items" ;;
  c <- HttpClient.AddQuery c "id" [AInt 42] ;;
  HttpClient.Timeout c 500000000.

Definition items_client (attempts delay : Z) (ruleF : option HttpClient.RuleF)
  : HttpClient.Client :=
  HttpClient.mkClient "GET" "https://example.test/items" 500000000
    attempts delay ruleF
    (Some 1%positive) (Some 1%positive) (Some 2%positive) (Some 3%positive)
    [] ANil.

(** [items_chain.Retry(2, 10 * time.Millisecond, always)] *)
Definition retry_chain : M HttpClient.Client loc :=
  c <- items_chain ;; HttpClient.Retry c 2 10000000 (Some always).

(** [items_chain.Retry(1, 0, nil)] *)
Definition norule_chain : M HttpClient.Client loc :=
  c <- items_chain ;; HttpClient.Retry c 1 0 None.

(** [NewRest("GET", ctl_url).Retry(2, 10 * time.Millisecond, always)] *)
Definition ctl_chain : M HttpClient.Client loc :=
  c <- HttpClient.NewRest "GET" ctl_url ;;
  HttpClient.Retry c 2 10000000 (Some always).

(** [NewRest("GET", ctl_url)] *)
Definition ctl_plain_chain : M HttpClient.Client loc :=
  HttpClient.NewRest "GET" ctl_url.

(** [NewRest("G T", "https://example.test/items")
      .Retry(2, 10 * time.Millisecond, always)] *)
Definition bad_method_chain : M HttpClient.Client loc :=
  c <- HttpClient.NewRest "G T" "https://example.test/items" ;;
  HttpClient.Retry c 2 10000000 (Some always).

(** [NewRest("POST", "https://example.test/items").AddForm("a", "b")] *)
Definition form_chain : M HttpClient.Client loc :=
  c <- HttpClient.NewRest "POST" "https://example.test/items" ;;
  HttpClient.AddForm c "a" [AString "b"].

(** The bytes of "ok". *)
Definition ok_bytes : list Byte.byte := [Byte.x6f; Byte.x6b].

(** Lines 133-141 of [send] for some enumeration [entries] of the query
    map: the loop, then [Encode]. *)
Definition encoded_query (entries : list (string * list string))
  : Res string :=
  query <-! add_entries url_Values_Add entries (Some ∅) ;;
  Ok (url_Values_Encode query).

(** The world that answers 200 and "ok" once, and the world that refuses
    every connection. *)
Definition ok_world : World := scripted [answer 200 ok_bytes].
Definition refusing_world : World := scripted [].

(** The error [url.Parse] gives for [ctl_url], wrapped by [send]. *)
Definition ctl_error : error :=
  ErrWrap (ErrMsg "net/url: invalid control character in URL") "url.Parse".

(** ** The same configuration in a [Client] and in a [Rest] *)

(** A [Rest] as a rule for a [Client] sees it. *)
Definition view_to_client (v : HttpRest.View) : HttpClient.View :=
  HttpClient.mkView (HttpRest.v_method v) (HttpRest.v_url v)
    (HttpRest.v_timeout v) (HttpRest.v_retryAttempts v)
    (HttpRest.v_retryDelay v) (HttpRest.v_param v) (HttpRest.v_query v)
    (HttpRest.v_header v) (HttpRest.v_form v) (HttpRest.v_body v)
    (HttpRest.v_records v).

(** Both nil, or two rules that decide alike. *)
Definition same_rule (f : option HttpClient.RuleF) (g : option HttpRest.RuleF)
  : Prop :=
  match f, g with
  | None, None => True
  | Some f, Some g => forall v response err,
      g v response err = f (view_to_client v) response err
  | _, _ => False
  end.

(** Field by field the same. *)
Record same_config (b : HttpClient.Client) (r : HttpRest.Rest) : Prop := {
  same_method : HttpClient.method b = HttpRest.method r;
  same_url : HttpClient.url b = HttpRest.url r;
  same_timeout : HttpClient.timeout b = HttpRest.timeout r;
  same_retryAttempts : HttpClient.retryAttempts b = HttpRest.retryAttempts r;
  same_retryDelay : HttpClient.retryDelay b = HttpRest.retryDelay r;
  same_retryRuleF : same_rule (HttpClient.retryRuleF b) (HttpRest.retryRuleF r);
  same_param : HttpClient.param b = HttpRest.param r;
  same_query : HttpClient.query b = HttpRest.query r;
  same_header : HttpClient.header b = HttpRest.header r;
  same_form : HttpClient.form b = HttpRest.form r;
  same_body : HttpClient.body b = HttpRest.body r;
  same_records : HttpClient.records b = HttpRest.records r
}.

(** The same maps, and the same builders at the same places. *)
Definition same_heap (hc : Heap HttpClient.Client) (hr : Heap HttpRest.Rest)
  : Prop :=
  strmaps hc = strmaps hr /\
  lstmaps hc = lstmaps hr /\
  forall l, option_Forall2 same_config (structs hc !! l) (structs hr !! l).

(** [items_chain] and [retry_chain], on a [Rest]. *)
Definition rest_items_chain : M HttpRest.Rest loc :=
  r <- HttpRest.NewRest "GET" "https://example.test/items" ;;
  r <- HttpRest.AddQuery r "id" [AInt 42] ;;
  HttpRest.Timeout r 500000000.

Definition rest_retry_chain : M HttpRest.Rest loc :=
  r <- rest_items_chain ;;
  HttpRest.Retry r 2 10000000 (Some (fun _ _ _ => true)).

(** ** The fields of a builder, for frame statements *)

Inductive Field : Type :=
  | FMethod | FUrl | FTimeout | FRetryAttempts | FRetryDelay | FRetryRuleF
  | FParam | FQuery | FHeader | FForm | FBody | FRecords.

#[global] Instance Field_eq_dec : EqDecision Field.
Proof. solve_decision. Defined.

(** Field [f] holds the same in [b] and [b']. *)
Definition same_field (f : Field) (b b' : HttpClient.Client) : Prop :=
  match f with
  | FMethod => HttpClient.method b = HttpClient.method b'
  | FUrl => HttpClient.url b = HttpClient.url b'
  | FTimeout => HttpClient.timeout b = HttpClient.timeout b'
  | FRetryAttempts => HttpClient.retryAttempts b = HttpClient.retryAttempts b'
  | FRetryDelay => HttpClient.retryDelay b = HttpClient.retryDelay b'
  | FRetryRuleF => HttpClient.retryRuleF b = HttpClient.retryRuleF b'
  | FParam => HttpClient.param b = HttpClient.param b'
  | FQuery => HttpClient.query b = HttpClient.query b'
  | FHeader => HttpClient.header b = HttpClient.header b'
  | FForm => HttpClient.form b = HttpClient.form b'
  | FBody => HttpClient.body b = HttpClient.body b'
  | FRecords => HttpClient.records b = HttpClient.records b'
  end.

(** All fields but those of [fs] hold the same. *)
Definition same_but (fs : list Field) (b b' : HttpClient.Client) : Prop :=
  forall f, f ∉ fs -> same_field f b b'.

(** The heap with the struct at [c] replaced, maps untouched. *)
Definition with_struct {T} (h : Heap T) (c : loc) (b : T) : Heap T :=
  mkHeap (<[c := b]> (structs h)) (strmaps h) (lstmaps h).

(** The heap with one key of the list map at [m] replaced, structs and
    all other maps untouched. *)
Definition with_lst_entry {T} (h : Heap T) (m : loc)
    (g : gmap string (list string)) (name : string) (v : list string)
  : Heap T :=
  mkHeap (structs h) (strmaps h) (<[m := <[name := v]> g]> (lstmaps h)).



(** One map handed to both [Query] and [Header], then [AddQuery]. *)
Definition shared_map_chain : M HttpClient.Client loc :=
  c <- HttpClient.NewRest "GET" "u" ;;
  m <- make_lstmap ;;
  c <- HttpClient.Query c (Some m) ;;
  c <- HttpClient.Header c (Some m) ;;
  HttpClient.AddQuery c "x" [AString "a"].

(** The first half of [send] on a [Rest], read as that on a [Client]. *)
Definition assembled_to_client (a : HttpRest.Assembled)
  : HttpClient.Assembled :=
  match a with
  | HttpRest.EarlyReturn response err => HttpClient.EarlyReturn response err
  | HttpRest.Ready req => HttpClient.Ready req
  end.

(** Two runs that end alike: the same pointer on the same heaps, or the
    same panic. *)
Definition same_run (rc : Res (loc * Heap HttpClient.Client))
    (rr : Res (loc * Heap HttpRest.Rest)) : Prop :=
  match rc, rr with
  | Ok (c, hc), Ok (r, hr) => c = r /\ same_heap hc hr
  | Panic mc, Panic mr => mc = mr
  | _, _ => False
  end.

(** ** More on [send]: any rule *)


(** The values the entries put under key [K] when names go through [f]:
    those of every entry whose name becomes [K], in the order of the
    entries. *)
Definition values_under (f : string -> string)
    (entries : list (string * list string)) (K : string) : list string :=
  e ← entries; if decide (f e.1 = K) then e.2 else [].

(** ** One call of a replacing setter *)

Inductive Setting : Type :=
  | SetTimeout (timeout : Z)
  | SetRetry (attempts delay : Z) (ruleF : option HttpClient.RuleF)
  | SetParam (param : option loc)
  | SetQuery (query : option loc)
  | SetHeader (header : option loc)
  | SetForm (form : option loc)
  | SetBody (body : list Byte.byte)
  | SetRecords (records : any).

(** The setter call a setting stands for. *)
Definition apply_setting (s : Setting) (c : loc) : M HttpClient.Client loc :=
  match s with
  | SetTimeout t => HttpClient.Timeout c t
  | SetRetry a d f => HttpClient.Retry c a d f
  | SetParam m => HttpClient.Param c m
  | SetQuery m => HttpClient.Query c m
  | SetHeader m => HttpClient.Header c m
  | SetForm m => HttpClient.Form c m
  | SetBody v => HttpClient.Body c v
  | SetRecords v => HttpClient.Records c v
  end.

(** The fields it writes. *)
Definition setting_fields (s : Setting) : list Field :=
  match s with
  | SetTimeout _ => [FTimeout]
  | SetRetry _ _ _ => [FRetryAttempts; FRetryDelay; FRetryRuleF]
  | SetParam _ => [FParam]
  | SetQuery _ => [FQuery]
  | SetHeader _ => [FHeader]
  | SetForm _ => [FForm]
  | SetBody _ => [FBody]
  | SetRecords _ => [FRecords]
  end.

(** ** More concrete builders and worlds *)




(** [items_chain.Retry(-3, 10 * time.Millisecond, always)] *)
Definition negative_chain : M HttpClient.Client loc :=
  c <- items_chain ;; HttpClient.Retry c (-3) 10000000 (Some always).

(** [NewRest("GET", "https://example.test/items").AddHeader("X", 1)
      .AddHeader("X", 2).Body("ok")] *)
Definition header_chain : M HttpClient.Client loc :=
  c <- HttpClient.NewRest "GET" "https://example.test/items" ;;
  c <- HttpClient.AddHeader c "X" [AInt 1] ;;
  c <- HttpClient.AddHeader c "X" [AInt 2] ;;
  HttpClient.Body c ok_bytes.

(** The request [header_chain] builds. *)
Definition header_request : http_Request :=
  mkRequest "GET" "https://example.test/items" (Some {["X" := ["1"; "2"]]})
    None ok_bytes.


(** * Theorems *)

(** ** The loops over map entries *)

Section Loops.
Variable addf : url_Values -> string -> string -> Res url_Values.

Lemma add_values_panic name values msg :
  add_values addf name values (Panic msg) = Panic msg.
Proof. induction values as [|v vs IH]; simpl; auto. Qed.

Lemma add_entries_from_panic entries msg :
  foldl (fun acc entry => add_values addf entry.1 entry.2 acc)
        (Panic msg) entries = Panic msg.
Proof.
  induction entries as [|e es IH]; simpl; [done|].
  by rewrite add_values_panic.
Qed.

Lemma add_entries_cons e es v :
  add_entries addf (e :: es) v =
  rbind (add_values addf e.1 e.2 (Ok v)) (add_entries addf es).
Proof.
  unfold add_entries. simpl.
  destruct (add_values addf e.1 e.2 (Ok v)) as [q|msg]; simpl; [done|].
  apply add_entries_from_panic.
Qed.

End Loops.

(** Adding to a nil map: nothing happens as long as there is nothing to
    add, and the first value panics. *)
Lemma add_values_nil (f : string -> string) name values :
  add_values (fun q k v => url_Values_Add q (f k) v) name values (Ok None)
  = if bool_decide (values = []) then Ok None else Panic nil_map_panic.
Proof.
  destruct values as [|v vs]; [done|].
  apply (add_values_panic _ name vs).
Qed.

Lemma add_entries_nil_quiet (f : string -> string) entries :
  Forall (fun e : string * list string => e.2 = []) entries ->
  add_entries (fun q k v => url_Values_Add q (f k) v) entries None = Ok None.
Proof.
  induction 1 as [|e es He _ IH]; [done|].
  rewrite add_entries_cons, add_values_nil, He. exact IH.
Qed.

Lemma add_entries_nil_panic (f : string -> string) entries :
  Exists (fun e : string * list string => e.2 <> []) entries ->
  add_entries (fun q k v => url_Values_Add q (f k) v) entries None
  = Panic nil_map_panic.
Proof.
  induction entries as [|e es IH]; intros Hex; [by inversion Hex|].
  rewrite add_entries_cons, add_values_nil.
  case_bool_decide as He; simpl; [|done].
  apply IH. inversion Hex; subst; [done|assumption].
Qed.

(** Adding to a map that exists never panics. *)
Lemma add_values_some (f : string -> string) name values m :
  exists m',
    add_values (fun q k v => url_Values_Add q (f k) v) name values
               (Ok (Some m)) = Ok (Some m').
Proof.
  revert m. induction values as [|v vs IH]; intros m; [by exists m|].
  apply IH.
Qed.

Lemma add_entries_some (f : string -> string) entries m :
  exists m',
    add_entries (fun q k v => url_Values_Add q (f k) v) entries (Some m)
    = Ok (Some m').
Proof.
  revert m. induction entries as [|e es IH]; intros m; [by exists m|].
  rewrite add_entries_cons.
  destruct (add_values_some f e.1 e.2 m) as [m1 ->]. apply IH.
Qed.

Lemma no_values_entries (m : gmap string (list string)) :
  no_values m ->
  Forall (fun e : string * list string => e.2 = []) (range_map m).
Proof.
  intros Hm. apply Forall_forall. intros [k vs] Hin. simpl.
  apply elem_of_map_to_list in Hin. exact (Hm k vs Hin).
Qed.

Lemma some_values_entries (m : gmap string (list string)) k vs :
  m !! k = Some vs -> vs <> [] ->
  Exists (fun e : string * list string => e.2 <> []) (range_map m).
Proof.
  intros Hk Hvs. apply Exists_exists. exists (k, vs). split; [|done].
  by apply elem_of_map_to_list.
Qed.

(** ** Measures of a trace *)




Section ClientSend.
Context {W : World}.
Import HttpClient.

(** [send], one level unfolded. *)
Lemma client_send_unfold h c attempts calls :
  send h c attempts calls =
  match structs h !! c with
  | None => ([], Panic nil_deref_panic)
  | Some b =>
      match assemble h b with
      | Panic msg => ([], Panic msg)
      | Ok (EarlyReturn response err) => ([], Ok (response, err))
      | Ok (Ready req) =>
          let r := attempt calls req (timeout b) in
          if Z_gt_dec attempts 0 then
            match retryRuleF b with
            | None => ([EvDo req (timeout b)], Panic nil_deref_panic)
            | Some ruleF =>
                if ruleF (view h b) r.1 r.2 then
                  after [EvDo req (timeout b); EvRule r.1 r.2;
                         EvSleep (retryDelay b)]
                        (send h c (attempts - 1) (S calls))
                else ([EvDo req (timeout b); EvRule r.1 r.2], Ok (r.1, r.2))
            end
          else ([EvDo req (timeout b)], Ok (r.1, r.2))
      end
  end.
Proof.
  rewrite send_unfold_eq. unfold send_unfold.
  destruct (structs h !! c) as [b|]; simpl; [|done].
  destruct (assemble h b) as [[response err|req]|msg]; simpl; try done.
  destruct (attempt calls req (timeout b)) as [response responseErr]; simpl.
  destruct (Z_gt_dec attempts 0); simpl; [|done].
  destruct (retryRuleF b) as [ruleF|]; simpl; [|done].
  destruct (ruleF (view h b) response responseErr); simpl; done.
Qed.

(** No tries left: one round trip, and its outcome is returned. *)
Lemma send_last_try h c b req attempts calls :
  structs h !! c = Some b -> assemble h b = Ok (Ready req) -> attempts <= 0 ->
  send h c attempts calls =
  ([EvDo req (timeout b)], Ok (attempt calls req (timeout b))).
Proof.
  intros Hc Ha Hn. rewrite client_send_unfold, Hc, Ha. simpl.
  destruct (Z_gt_dec attempts 0); [lia|].
  by destruct (attempt calls req (timeout b)).
Qed.

(** Without a request there is no round trip, whatever [attempts] is. *)
Lemma send_not_ready h c b attempts calls :
  structs h !! c = Some b ->
  (forall req, assemble h b <> Ok (Ready req)) ->
  send h c attempts calls =
  match assemble h b with
  | Panic msg => ([], Panic msg)
  | Ok (EarlyReturn response err) => ([], Ok (response, err))
  | Ok (Ready req) => ([], Panic "")
  end.
Proof.
  intros Hc Hn. rewrite client_send_unfold, Hc.
  destruct (assemble h b) as [[response err|req]|msg]; try done.
  by destruct (Hn req).
Qed.





End ClientSend.

(** ** Strings *)

Lemma string_app_assoc (a b c : string) : (a +:+ b) +:+ c = a +:+ (b +:+ c).
Proof.
  induction a as [|x a IH]; [done|].
  change (String x ((a +:+ b) +:+ c) = String x (a +:+ (b +:+ c))).
  by rewrite IH.
Qed.

Lemma string_app_nil_r (a : string) : a +:+ "" = a.
Proof.
  induction a as [|x a IH]; [done|].
  change (String x (a +:+ "") = String x a). by rewrite IH.
Qed.

Lemma string_app_nonempty_r (a b : string) : b <> "" -> a +:+ b <> "".
Proof. destruct a; [done|]. intros _. discriminate. Qed.

Lemma join_onto_app buf ps qs :
  join_onto buf (ps ++ qs) = join_onto (join_onto buf ps) qs.
Proof. apply foldl_app. Qed.

Lemma join_onto_concat buf pieces :
  Forall (fun p => p <> "") pieces ->
  join_onto buf pieces =
  if bool_decide (buf = "") then String.concat "&" pieces
  else if bool_decide (pieces = []) then buf
       else buf +:+ "&" +:+ String.concat "&" pieces.
Proof.
  intros Hne. revert buf.
  induction Hne as [|p ps Hp Hps IH]; intros buf.
  - simpl. by case_bool_decide.
  - change (join_onto buf (p :: ps))
      with (join_onto ((if bool_decide (buf = "") then buf else buf +:+ "&")
                         +:+ p) ps).
    rewrite IH.
    rewrite (bool_decide_eq_false_2 (_ +:+ p = ""))
      by (by apply string_app_nonempty_r).
    rewrite (bool_decide_eq_false_2 (p :: ps = [])) by done.
    destruct (decide (buf = "")) as [->|Hbuf].
    + rewrite !(bool_decide_eq_true_2 ("" = "")) by done.
      destruct ps as [|p' ps]; [by rewrite bool_decide_eq_true_2|].
      by rewrite bool_decide_eq_false_2.
    + rewrite !(bool_decide_eq_false_2 (buf = "")) by done.
      destruct ps as [|p' ps].
      * rewrite bool_decide_eq_true_2 by done. by rewrite string_app_assoc.
      * rewrite bool_decide_eq_false_2 by done.
        change (String.concat "&" (p :: p' :: ps))
          with (p +:+ "&" +:+ String.concat "&" (p' :: ps)).
        by rewrite !string_app_assoc.
Qed.

Lemma encode_values_join ke buf vs :
  foldl (encode_pair ke) buf vs =
  join_onto buf ((fun v => ke +:+ "=" +:+ url_QueryEscape v) <$> vs).
Proof.
  revert buf. induction vs as [|v vs IH]; intros buf; [done|].
  simpl. rewrite IH. done.
Qed.

Lemma encode_keys_join (m : gmap string (list string)) keys buf :
  foldl (fun buf k =>
           let vs := default [] (m !! k) in
           let keyEscaped := url_QueryEscape k in
           foldl (encode_pair keyEscaped) buf vs) buf keys
  = join_onto buf
      (k ← keys;
       (fun v => url_QueryEscape k +:+ "=" +:+ url_QueryEscape v)
         <$> default [] (m !! k)).
Proof.
  revert buf. induction keys as [|k keys IH]; intros buf; [done|].
  simpl. rewrite IH, encode_values_join, join_onto_app. done.
Qed.

Lemma pairs_nonempty (m : gmap string (list string)) keys :
  Forall (fun p => p <> "")
    (k ← keys;
     (fun v => url_QueryEscape k +:+ "=" +:+ url_QueryEscape v)
       <$> default [] (m !! k)).
Proof.
  apply Forall_forall. intros p Hp.
  apply list_elem_of_bind in Hp as (k & Hp & _).
  apply list_elem_of_fmap in Hp as (v & -> & _).
  by apply string_app_nonempty_r.
Qed.

(** [Encode] of a map is the pairs of that map, joined. *)
Lemma Encode_spec (m : gmap string (list string)) :
  url_Values_Encode (Some m) = spec_query_string m.
Proof.
  unfold url_Values_Encode, spec_query_string, spec_query_pairs, range_map.
  case_bool_decide as Hsz.
  - apply map_size_empty_iff in Hsz. subst m.
    by rewrite map_to_list_empty.
  - rewrite encode_keys_join, join_onto_concat by apply pairs_nonempty.
    done.
Qed.

(** ** What the query loop builds *)

Lemma add_values_Add name values (m : gmap string (list string)) :
  add_values url_Values_Add name values (Ok (Some m)) =
  Ok (Some (if decide (values = []) then m
            else <[name := default [] (m !! name) ++ values]> m)).
Proof.
  revert m. induction values as [|v vs IH]; intros m; [done|].
  change (add_values url_Values_Add name (v :: vs) (Ok (Some m)))
    with (add_values url_Values_Add name vs
            (Ok (Some (<[name := default [] (m !! name) ++ [v]]> m)))).
  rewrite IH. rewrite (decide_False (P := v :: vs = [])) by done.
  destruct (decide (vs = [])) as [->|_]; [done|].
  rewrite lookup_insert_eq, insert_insert_eq. simpl.
  by rewrite <- (assoc_L (++)).
Qed.

(** Entry by entry: a key's values are appended to what the map holds for
    it, and a key without values leaves the map alone. *)
Lemma add_entries_lookup entries (m : gmap string (list string)) :
  NoDup entries.*1 ->
  exists m',
    add_entries url_Values_Add entries (Some m) = Ok (Some m') /\
    forall k,
      m' !! k =
      match (list_to_map entries : gmap string (list string)) !! k with
      | Some vs =>
          if decide (vs = []) then m !! k
          else Some (default [] (m !! k) ++ vs)
      | None => m !! k
      end.
Proof.
  revert m. induction entries as [|[name values] es IH]; intros m Hnd.
  - exists m. split; [done|]. intros k. by rewrite list_to_map_nil, lookup_empty.
  - apply NoDup_cons in Hnd as [Hname Hnd].
    rewrite add_entries_cons, add_values_Add. simpl.
    destruct (IH (if decide (values = []) then m
                  else <[name := default [] (m !! name) ++ values]> m) Hnd)
      as (m' & Hrun & Hm').
    exists m'. split; [exact Hrun|]. intros k. rewrite Hm'. simpl.
    destruct (decide (name = k)) as [->|Hne].
    + rewrite lookup_insert_eq.
      rewrite (not_elem_of_list_to_map_1 es k Hname).
      destruct (decide (values = [])); [done|]. by rewrite lookup_insert_eq.
    + rewrite (lookup_insert_ne _ name k) by done.
      assert ((if decide (values = []) then m
               else <[name := default [] (m !! name) ++ values]> m) !! k
              = m !! k) as ->; [|done].
      destruct (decide (values = [])); [done|]. by rewrite lookup_insert_ne.
Qed.

(** In whatever order the entries of the query map come, the loop builds
    the same map: the entries that have a value. *)
Lemma query_loop_any_order (q : gmap string (list string)) entries :
  entries ≡ₚ map_to_list q ->
  add_entries url_Values_Add entries (Some ∅) = Ok (Some (query_values q)).
Proof.
  intros Hperm.
  assert (NoDup entries.*1) as Hnd.
  { rewrite Hperm. apply NoDup_fst_map_to_list. }
  destruct (add_entries_lookup entries ∅ Hnd) as (m' & -> & Hm').
  do 2 f_equal. apply map_eq. intros k. rewrite Hm'.
  rewrite (list_to_map_proper entries (map_to_list q)) by done.
  rewrite list_to_map_to_list. unfold query_values.
  rewrite map_lookup_filter, lookup_empty.
  destruct (q !! k) as [vs|]; simpl; [|done].
  destruct (decide (vs = [])) as [->|Hvs].
  - by rewrite option_guard_False by (simpl; auto).
  - by rewrite option_guard_True.
Qed.

(** ** Keys without values do not show in the query string *)

Lemma StronglySorted_filter_le (P : string -> Prop) `{!forall k, Decision (P k)}
    (l : list string) :
  StronglySorted String.le l -> StronglySorted String.le (filter P l).
Proof.
  induction 1 as [|k l Hl IH Hk]; [constructor|].
  rewrite filter_cons. destruct (decide (P k)); [|done].
  constructor; [done|].
  apply Forall_forall. intros k' Hk'. apply list_elem_of_filter in Hk' as [_ Hk'].
  rewrite Forall_forall in Hk. by apply Hk.
Qed.

Lemma bind_filter_nil {A B} (P : A -> Prop) `{!forall x, Decision (P x)}
    (f : A -> list B) (l : list A) :
  (forall x, ~ P x -> f x = []) -> filter P l ≫= f = l ≫= f.
Proof.
  intros Hf. induction l as [|x l IH]; [done|].
  rewrite filter_cons. destruct (decide (P x)) as [|Hx]; csimpl.
  - by rewrite IH.
  - by rewrite (Hf x Hx), IH.
Qed.

Lemma bind_ext_in {A B} (f g : A -> list B) (l : list A) :
  (forall x, x ∈ l -> f x = g x) -> l ≫= f = l ≫= g.
Proof.
  induction l as [|x l IH]; intros Hfg; [done|].
  csimpl. rewrite (Hfg x) by left. rewrite IH; [done|].
  intros y Hy. apply Hfg. by right.
Qed.

Lemma sorted_keys_query_values (q : gmap string (list string)) :
  merge_sort String.le (map_to_list (query_values q)).*1 =
  filter (fun k => default [] (q !! k) <> [])
         (merge_sort String.le (map_to_list q).*1).
Proof.
  apply (StronglySorted_unique String.le).
  - apply StronglySorted_merge_sort; apply _.
  - apply StronglySorted_filter_le, StronglySorted_merge_sort; apply _.
  - apply NoDup_Permutation.
    + rewrite merge_sort_Permutation. apply NoDup_fst_map_to_list.
    + apply NoDup_filter. rewrite merge_sort_Permutation.
      apply NoDup_fst_map_to_list.
    + intros k. rewrite list_elem_of_filter, !merge_sort_Permutation.
      rewrite !list_elem_of_fmap. unfold query_values. split.
      * intros ([k' vs] & -> & Hin). simpl.
        apply elem_of_map_to_list, map_lookup_filter_Some in Hin as [Hq Hvs].
        simpl in Hvs. rewrite Hq. split; [done|].
        exists (k', vs). split; [done|]. by apply elem_of_map_to_list.
      * intros (Hne & [k' vs] & -> & Hin). simpl in *.
        apply elem_of_map_to_list in Hin. rewrite Hin in Hne. simpl in Hne.
        exists (k', vs). split; [done|].
        by apply elem_of_map_to_list, map_lookup_filter_Some.
Qed.

Lemma spec_query_string_values (q : gmap string (list string)) :
  spec_query_string (query_values q) = spec_query_string q.
Proof.
  unfold spec_query_string, spec_query_pairs. f_equal.
  rewrite sorted_keys_query_values.
  rewrite <- (bind_filter_nil (fun k => default [] (q !! k) <> [])
                (fun k => _ <$> default [] (q !! k))).
  - apply bind_ext_in. intros k Hk.
    apply list_elem_of_filter in Hk as [Hk _]. f_equal.
    unfold query_values. rewrite map_lookup_filter.
    destruct (q !! k) as [vs|]; simpl in *; [|done].
    by rewrite option_guard_True.
  - intros k Hk. destruct (decide (default [] (q !! k) = [])) as [->|]; done.
Qed.

(** ** The first half of [send] *)

Section ClientAssemble.
Context {W : World}.
Import HttpClient.

Lemma NewRequest_fresh method url body req :
  http_NewRequest method url body = inr req ->
  req_Header req = Some ∅ /\ req_Form req = None /\ req_URL req = url.
Proof.
  unfold http_NewRequest. destruct (negb _); [done|].
  destruct (url_Parse url); [done|]. by intros [= <-].
Qed.

Lemma header_loop_total entries :
  exists hd, add_entries http_Header_Add entries (Some ∅) = Ok (Some hd).
Proof. apply (add_entries_some CanonicalMIMEHeaderKey). Qed.

Lemma form_loop (h : Heap Client) b :
  add_entries url_Values_Add (range_map (lst_contents h (form b))) None =
  if decide (no_values (lst_contents h (form b))) then Ok None
  else Panic nil_map_panic.
Proof.
  destruct (decide _) as [Hno|Hsome].
  - apply (add_entries_nil_quiet id). by apply no_values_entries.
  - apply (add_entries_nil_panic id).
    apply map_not_Forall in Hsome as (k & vs & Hk & Hvs); [|apply _].
    by apply (some_values_entries _ k vs).
Qed.

(** [assemble], stage by stage. *)
Lemma assemble_stages (h : Heap Client) b :
  assemble h b =
  match url_Parse (url b) with
  | inl err => Ok (EarlyReturn None (Some (ErrWrap err "url.Parse")))
  | inr u =>
      match http_NewRequest (method b)
              (built_url (lst_contents h (query b)) u) (body b) with
      | inl err => Ok (EarlyReturn None (Some (ErrWrap err "http.NewRequest")))
      | inr req0 =>
          hd <-! add_entries http_Header_Add
                   (range_map (lst_contents h (header b))) (Some ∅) ;;
          if decide (no_values (lst_contents h (form b)))
          then Ok (Ready (mkRequest (req_Method req0) (req_URL req0) hd None
                            (req_Body req0)))
          else Panic nil_map_panic
      end
  end%go.
Proof.
  unfold assemble. destruct (url_Parse (url b)) as [err|u]; [done|].
  unfold range_map at 1.
  rewrite (query_loop_any_order (lst_contents h (query b))) by done.
  cbn [rbind].
  rewrite Encode_spec, spec_query_string_values. fold (built_url (lst_contents h (query b)) u).
  destruct (http_NewRequest _ _ _) as [err|req0] eqn:Hreq; [done|].
  apply NewRequest_fresh in Hreq as (-> & -> & _).
  destruct (header_loop_total (range_map (lst_contents h (header b))))
    as [hd ->]. simpl.
  rewrite form_loop. by destruct (decide _).
Qed.

(** The request is ready when the URL parses, [http.NewRequest] accepts
    the method and the URL, and the form map has no value to add. *)
Lemma assemble_ready (h : Heap Client) b u req0 :
  url_Parse (url b) = inr u ->
  http_NewRequest (method b) (built_url (lst_contents h (query b)) u) (body b)
    = inr req0 ->
  no_values (lst_contents h (form b)) ->
  exists req,
    assemble h b = Ok (Ready req) /\
    req_URL req = built_url (lst_contents h (query b)) u /\
    req_Form req = None.
Proof.
  intros Hu Hreq Hform. rewrite assemble_stages, Hu, Hreq.
  destruct (header_loop_total (range_map (lst_contents h (header b))))
    as [hd ->]. simpl.
  rewrite decide_True by done. eexists. split; [done|]. simpl.
  by apply NewRequest_fresh in Hreq as (_ & _ & ->).
Qed.

(** An early return is one of the two error returns. *)
Lemma assemble_early (h : Heap Client) b response err :
  assemble h b = Ok (EarlyReturn response err) ->
  response = None /\
  ((exists e, url_Parse (url b) = inl e /\ err = Some (ErrWrap e "url.Parse"))
   \/ (exists u e,
         url_Parse (url b) = inr u /\
         http_NewRequest (method b)
           (built_url (lst_contents h (query b)) u) (body b) = inl e /\
         err = Some (ErrWrap e "http.NewRequest"))).
Proof.
  rewrite assemble_stages.
  destruct (url_Parse (url b)) as [e|u] eqn:Hu.
  - intros [= <- <-]. eauto.
  - destruct (http_NewRequest _ _ _) as [e|req0] eqn:Hreq.
    + intros [= <- <-]. split; [done|]. right. eauto.
    + destruct (header_loop_total (range_map (lst_contents h (header b))))
        as [hd ->]. simpl. by destruct (decide _).
Qed.


(** With a value in the form map, [send] panics before any round trip. *)
Lemma send_form_panics (h : Heap Client) c b u req0 k vs attempts calls :
  structs h !! c = Some b ->
  url_Parse (url b) = inr u ->
  http_NewRequest (method b) (built_url (lst_contents h (query b)) u) (body b)
    = inr req0 ->
  lst_contents h (form b) !! k = Some vs -> vs <> [] ->
  send h c attempts calls = ([], Panic nil_map_panic).
Proof.
  intros Hc Hu Hreq Hk Hvs.
  rewrite client_send_unfold, Hc, assemble_stages, Hu, Hreq.
  destruct (header_loop_total (range_map (lst_contents h (header b))))
    as [hd ->]. simpl.
  rewrite decide_False; [done|].
  intros Hno. apply Hvs. exact (Hno k vs Hk).
Qed.

(** Without tries left the rule is not asked and nobody sleeps. *)
Lemma no_retry_quiet h c attempts calls :
  attempts <= 0 ->
  rule_calls (send h c attempts calls).1 = 0%nat /\
  sleeps (send h c attempts calls).1 = [] /\
  (transport_calls (send h c attempts calls).1 <= 1)%nat.
Proof.
  intros Hn. rewrite client_send_unfold.
  destruct (structs h !! c) as [b|]; [|by auto].
  destruct (assemble h b) as [[response err|req]|msg]; try by auto.
  simpl. destruct (Z_gt_dec attempts 0); [lia|]. by auto.
Qed.

End ClientAssemble.

(** ** Claims on [Send] *)

Section ClientClaims.
Context {W : World}.
Import HttpClient.

Lemma Send_send (h : Heap Client) c b :
  structs h !! c = Some b -> Send h c = send h c (retryAttempts b) 0.
Proof. intros Hc. unfold Send. by rewrite Hc. Qed.

(** C1 (amended).  With [retryAttempts = 0], a URL that parses, a request
    that [http.NewRequest] accepts and a form map without values, [Send]
    makes exactly one round trip and returns its outcome; the rule is not
    asked and nobody sleeps. *)
Theorem C1_no_retry_one_round_trip (h : Heap Client) c b u req0 :
  structs h !! c = Some b ->
  retryAttempts b = 0 ->
  url_Parse (url b) = inr u ->
  http_NewRequest (method b) (built_url (lst_contents h (query b)) u) (body b)
    = inr req0 ->
  no_values (lst_contents h (form b)) ->
  exists req,
    Send h c = ([EvDo req (timeout b)], Ok (attempt 0 req (timeout b))) /\
    transport_calls (Send h c).1 = 1%nat /\
    rule_calls (Send h c).1 = 0%nat /\
    sleeps (Send h c).1 = [].
Proof.
  intros Hc Hn Hu Hreq Hform.
  destruct (assemble_ready h b u req0 Hu Hreq Hform) as (req & Ha & _).
  exists req. rewrite (Send_send h c b Hc), Hn.
  rewrite (send_last_try h c b req) by (done || lia). done.
Qed.


Lemma send_ready_has_round_trip (h : Heap Client) c b req attempts calls :
  structs h !! c = Some b -> assemble h b = Ok (Ready req) ->
  (1 <= transport_calls (send h c attempts calls).1)%nat.
Proof.
  intros Hc Ha. rewrite client_send_unfold, Hc, Ha. simpl.
  unfold transport_calls.
  destruct (Z_gt_dec attempts 0); [|simpl; lia].
  destruct (retryRuleF b) as [ruleF|]; [|simpl; lia].
  destruct (ruleF _ _ _); [|simpl; lia].
  unfold after. simpl. lia.
Qed.

(** C3 (amended).  A URL that does not parse makes [Send] return a nil
    response and the error wrapped as "url.Parse", without a round trip,
    a call of the rule or a sleep, whatever [retryAttempts] is; a request
    that [http.NewRequest] refuses does the same, wrapped as
    "http.NewRequest"; and a return without a round trip is always one of
    these two. *)
Theorem C3_early_errors_bypass_retry (h : Heap Client) c b :
  structs h !! c = Some b ->
  (forall err,
     url_Parse (url b) = inl err ->
     Send h c = ([], Ok (None, Some (ErrWrap err "url.Parse")))) /\
  (forall u err,
     url_Parse (url b) = inr u ->
     http_NewRequest (method b) (built_url (lst_contents h (query b)) u)
       (body b) = inl err ->
     Send h c = ([], Ok (None, Some (ErrWrap err "http.NewRequest")))) /\
  (forall response err,
     transport_calls (Send h c).1 = 0%nat ->
     (Send h c).2 = Ok (response, err) ->
     (Send h c).1 = [] /\ response = None /\
     ((exists e, url_Parse (url b) = inl e /\
                 err = Some (ErrWrap e "url.Parse"))
      \/ (exists u e,
            url_Parse (url b) = inr u /\
            http_NewRequest (method b)
              (built_url (lst_contents h (query b)) u) (body b) = inl e /\
            err = Some (ErrWrap e "http.NewRequest")))).
Proof.
  intros Hc. rewrite (Send_send h c b Hc). split; [|split].
  - intros err Hu. by rewrite client_send_unfold, Hc, assemble_stages, Hu.
  - intros u err Hu Hreq.
    by rewrite client_send_unfold, Hc, assemble_stages, Hu, Hreq.
  - intros response err Hzero Hret.
    destruct (assemble h b) as [[r e|req]|msg] eqn:Ha.
    + rewrite client_send_unfold, Hc, Ha in Hret |- *.
      injection Hret as <- <-.
      apply assemble_early in Ha as [-> Hor]. done.
    + pose proof (send_ready_has_round_trip h c b req (retryAttempts b) 0
                    Hc Ha). lia.
    + by rewrite client_send_unfold, Hc, Ha in Hret.
Qed.

Lemma attempt_xor calls req timeout :
  let r := attempt calls req timeout in
  (is_Some r.1 <->
   exists res, client_Do calls req timeout = DoDone res /\
               (ioutil_ReadAll (res_Body res)).2 = None) /\
  (is_Some r.1 <-> r.2 = None).
Proof.
  unfold attempt. destruct (client_Do calls req timeout) as [res|res err].
  - unfold ioutil_ReadAll. simpl.
    destruct (stream_err (res_Body res)) as [e|] eqn:He; simpl.
    + split; split.
      * intros [? [=]].
      * intros (res' & [= <-] & He'). congruence.
      * intros [? [=]].
      * intros [=].
    + split; split; eauto.
  - simpl. split; split.
    + intros [? [=]].
    + intros (res' & [=] & _).
    + intros [? [=]].
    + intros [=].
Qed.

Lemma send_xor (h : Heap Client) c n :
  forall attempts calls, attempts <= Z.of_nat n ->
    match (send h c attempts calls).2 with
    | Ok (response, err) => is_Some response <-> err = None
    | Panic _ => True
    end.
Proof.
  induction n as [|n IH]; intros attempts calls Hn;
    rewrite client_send_unfold;
    (destruct (structs h !! c) as [b|]; [|done]);
    (destruct (assemble h b) as [[response err|req]|msg] eqn:Ha; [|idtac|done]).
  1,3: apply assemble_early in Ha as [-> [(e & _ & ->)|(u & e & _ & _ & ->)]];
       simpl; split; (done || by intros []).
  all: simpl; destruct (Z_gt_dec attempts 0); [|apply attempt_xor].
  - lia.
  - destruct (retryRuleF b) as [ruleF|]; [|done].
    destruct (ruleF _ _ _); [|apply attempt_xor].
    unfold after. simpl. apply IH. lia.
Qed.

(** C4.  An attempt gives a response exactly when the round trip and the
    draining of the body both succeed, and then no error; otherwise it
    gives no response and an error.  Whatever [Send] returns is of the same
    kind: exactly one of response and error is nil. *)
Theorem C4_response_xor_error :
  (forall calls req timeout,
     let r := attempt calls req timeout in
     (is_Some r.1 <->
      exists res, client_Do calls req timeout = DoDone res /\
                  (ioutil_ReadAll (res_Body res)).2 = None) /\
     (is_Some r.1 <-> r.2 = None)) /\
  (forall (h : Heap Client) c,
     match (Send h c).2 with
     | Ok (response, err) => is_Some response <-> err = None
     | Panic _ => True
     end).
Proof.
  split; [apply attempt_xor|].
  intros h c. unfold Send. destruct (structs h !! c) as [b|]; [|done].
  apply (send_xor h c (Z.to_nat (retryAttempts b))). lia.
Qed.

(** C6.  With tries left and no rule, [Send] panics as soon as the first
    round trip is over: calling the nil function value is a nil
    dereference. *)
Theorem C6_nil_rule_panics (h : Heap Client) c b u req0 :
  structs h !! c = Some b ->
  0 < retryAttempts b ->
  retryRuleF b = None ->
  url_Parse (url b) = inr u ->
  http_NewRequest (method b) (built_url (lst_contents h (query b)) u) (body b)
    = inr req0 ->
  no_values (lst_contents h (form b)) ->
  exists req,
    Send h c = ([EvDo req (timeout b)], Panic nil_deref_panic).
Proof.
  intros Hc Hk Hf Hu Hreq Hform.
  destruct (assemble_ready h b u req0 Hu Hreq Hform) as (req & Ha & _).
  exists req. rewrite (Send_send h c b Hc), client_send_unfold, Hc, Ha. simpl.
  destruct (Z_gt_dec (retryAttempts b) 0); [|lia]. by rewrite Hf.
Qed.


End ClientClaims.

(** ** The claims on concrete builders *)

(** [items_chain] in the world that answers 200 and "ok". *)
Lemma C1_witness :
  structs (heap_of items_chain) !! 1%positive = Some (items_client 0 0 None) /\
  exists req,
    HttpClient.Send (W := ok_world) (heap_of items_chain) 1%positive =
      ([EvDo req 500000000],
       Ok (HttpClient.attempt (W := ok_world) 0 req 500000000)) /\
    transport_calls
      (HttpClient.Send (W := ok_world) (heap_of items_chain) 1%positive).1
      = 1%nat /\
    rule_calls
      (HttpClient.Send (W := ok_world) (heap_of items_chain) 1%positive).1
      = 0%nat /\
    sleeps
      (HttpClient.Send (W := ok_world) (heap_of items_chain) 1%positive).1
      = [].
Proof.
  split; [reflexivity|].
  apply (C1_no_retry_one_round_trip (W := ok_world) (heap_of items_chain)
           1%positive (items_client 0 0 None)
           ("https://example.test/items", "")
           (mkRequest "GET" "https://example.test/items?id=42" (Some ∅) None []));
    [reflexivity..|].
  refine (bool_decide_unpack _ _). vm_compute. exact I.
Defined.

(** C1 as stated fails: with [retryAttempts = 0] and a URL that does not
    parse, [Send] makes no round trip at all. *)
Lemma C1_counterexample :
  HttpClient.retryAttempts
    <$> structs (heap_of ctl_plain_chain) !! ptr_of ctl_plain_chain = Some 0 /\
  HttpClient.Send (W := ok_world) (heap_of ctl_plain_chain)
    (ptr_of ctl_plain_chain) = ([], Ok (None, Some ctl_error)) /\
  transport_calls
    (HttpClient.Send (W := ok_world) (heap_of ctl_plain_chain)
       (ptr_of ctl_plain_chain)).1 <> 1%nat /\
  ~ (forall (W : World) (h : Heap HttpClient.Client) c b,
       structs h !! c = Some b -> HttpClient.retryAttempts b = 0 ->
       transport_calls (HttpClient.Send h c).1 = 1%nat).
Proof.
  split; [|split; [|split]]; [reflexivity | reflexivity | by vm_compute |].
  intros Hall.
  specialize (Hall ok_world (heap_of ctl_plain_chain) 1%positive _
                eq_refl eq_refl).
  by vm_compute in Hall.
Qed.



(** [ctl_chain]: the URL does not parse. *)
Lemma C3_witness :
  structs (heap_of ctl_chain) !! 1%positive
    = Some (HttpClient.mkClient "GET" ctl_url 2000000000 2 10000000
              (Some always) (Some 1%positive) (Some 1%positive)
              (Some 2%positive) (Some 3%positive) [] ANil) /\
  HttpClient.Send (W := ok_world) (heap_of ctl_chain) 1%positive
    = ([], Ok (None, Some ctl_error)).
Proof.
  split; [reflexivity|].
  refine (proj1 (C3_early_errors_bypass_retry (W := ok_world)
                   (heap_of ctl_chain) 1%positive _ _) _ _); reflexivity.
Defined.

(** C3 as stated fails on "the only": a method that is not a token makes
    [http.NewRequest] fail, and [Send] returns that error without a round
    trip or a call of the rule, although the URL parses and two retries
    are configured. *)
Lemma C3_counterexample :
  structs (heap_of bad_method_chain) !! ptr_of bad_method_chain
    = Some (HttpClient.mkClient "G T" "https://example.test/items" 2000000000
              2 10000000 (Some always) (Some 1%positive) (Some 1%positive)
              (Some 2%positive) (Some 3%positive) [] ANil) /\
  url_Parse (World := ok_world) "https://example.test/items"
    = inr ("https://example.test/items", "") /\
  HttpClient.Send (W := ok_world) (heap_of bad_method_chain)
    (ptr_of bad_method_chain)
    = ([], Ok (None, Some (ErrWrap (ErrMsg "net/http: invalid method G T")
                             "http.NewRequest"))) /\
  ~ (forall (W : World) (h : Heap HttpClient.Client) c b response err,
       structs h !! c = Some b -> 0 < HttpClient.retryAttempts b ->
       HttpClient.Send h c = ([], Ok (response, Some err)) ->
       exists e, url_Parse (HttpClient.url b) = inl e).
Proof.
  split; [|split; [|split]]; [reflexivity..|].
  intros Hall.
  destruct (Hall ok_world (heap_of bad_method_chain) 1%positive _ _ _
              eq_refl eq_refl eq_refl) as [e He].
  by vm_compute in He.
Qed.

(** C5, on the code: one form value, and [Send] panics on the write into
    the nil [Form] of the request, before any round trip. *)
Theorem C5_form_value_panics :
  send_after ok_world form_chain = Ok ([], Panic nil_map_panic).
Proof. reflexivity. Qed.

(** [norule_chain]: one retry configured, no rule. *)
Lemma C6_witness :
  structs (heap_of norule_chain) !! 1%positive = Some (items_client 1 0 None) /\
  exists req,
    HttpClient.Send (W := ok_world) (heap_of norule_chain) 1%positive
      = ([EvDo req 500000000], Panic nil_deref_panic).
Proof.
  split; [reflexivity|].
  apply (C6_nil_rule_panics (W := ok_world) (heap_of norule_chain) 1%positive
           (items_client 1 0 None) ("https://example.test/items", "")
           (mkRequest "GET" "https://example.test/items?id=42" (Some ∅) None []));
    [reflexivity..|].
  refine (bool_decide_unpack _ _). vm_compute. exact I.
Defined.


(** The same through the builder: the URL handed to the transport. *)
Example query_through_builder :
  (send_after ok_world
     (c <- HttpClient.NewRest "GET" "https://example.test/items" ;;
      c <- HttpClient.AddQuery c "x" [AString "a"] ;;
      HttpClient.AddQuery c "x" [AString "b"])%go)
  = Ok ([EvDo (mkRequest "GET" "https://example.test/items?x=a&x=b"
                 (Some ∅) None []) 2000000000],
        Ok (Some (mkResponse 200 ∅ "ok"), None)).
Proof. reflexivity. Qed.

(** ** [Rest] against [Client] *)

Section RestClient.
Context {W : World}.

(** [send] on a [Rest], one level unfolded. *)
Lemma rest_send_unfold h r attempts calls :
  HttpRest.send h r attempts calls =
  match structs h !! r with
  | None => ([], Panic nil_deref_panic)
  | Some b =>
      match HttpRest.assemble h b with
      | Panic msg => ([], Panic msg)
      | Ok (HttpRest.EarlyReturn response err) => ([], Ok (response, err))
      | Ok (HttpRest.Ready req) =>
          let o := HttpRest.attempt calls req (HttpRest.timeout b) in
          if Z_gt_dec attempts 0 then
            match HttpRest.retryRuleF b with
            | None => ([EvDo req (HttpRest.timeout b)], Panic nil_deref_panic)
            | Some ruleF =>
                if ruleF (HttpRest.view h b) o.1 o.2 then
                  after [EvDo req (HttpRest.timeout b); EvRule o.1 o.2;
                         EvSleep (HttpRest.retryDelay b)]
                        (HttpRest.send h r (attempts - 1) (S calls))
                else ([EvDo req (HttpRest.timeout b); EvRule o.1 o.2],
                      Ok (o.1, o.2))
            end
          else ([EvDo req (HttpRest.timeout b)], Ok (o.1, o.2))
      end
  end.
Proof.
  rewrite HttpRest.send_unfold_eq. unfold HttpRest.send_unfold.
  destruct (structs h !! r) as [b|]; simpl; [|done].
  destruct (HttpRest.assemble h b) as [[response err|req]|msg]; simpl; try done.
  destruct (HttpRest.attempt calls req (HttpRest.timeout b))
    as [response responseErr]; simpl.
  destruct (Z_gt_dec attempts 0); simpl; [|done].
  destruct (HttpRest.retryRuleF b) as [ruleF|]; simpl; [|done].
  destruct (ruleF (HttpRest.view h b) response responseErr); simpl; done.
Qed.

Lemma same_attempt calls req timeout :
  HttpRest.attempt calls req timeout = HttpClient.attempt calls req timeout.
Proof. reflexivity. Qed.

Lemma same_view hc hr b r :
  same_heap hc hr -> same_config b r ->
  view_to_client (HttpRest.view hr r) = HttpClient.view hc b.
Proof.
  intros (Hs & Hl & _) [].
  unfold view_to_client, HttpRest.view, HttpClient.view, HttpRest.lst_view,
    HttpClient.lst_view. simpl.
  by repeat match goal with E : _ = _ |- _ => rewrite <- E; clear E end.
Qed.

Lemma same_assemble hc hr b r :
  same_heap hc hr -> same_config b r ->
  rbind (HttpRest.assemble hr r) (fun a => Ok (assembled_to_client a))
  = HttpClient.assemble hc b.
Proof.
  intros (Hs & Hl & _) [].
  unfold HttpRest.assemble, HttpClient.assemble, lst_contents.
  repeat match goal with E : _ = _ |- _ => rewrite <- E; clear E end.
  destruct (url_Parse (HttpClient.url b)) as [e|u]; [done|].
  destruct (add_entries url_Values_Add _ _) as [q|msg]; [|done].
  cbn [rbind].
  destruct (http_NewRequest _ _ _) as [e|req0]; [done|].
  destruct (add_entries http_Header_Add _ _) as [hd|msg]; [|done].
  cbn [rbind].
  destruct (add_entries url_Values_Add _ _) as [fm|msg]; done.
Qed.

Lemma same_send hc hr p n :
  same_heap hc hr ->
  forall attempts calls, attempts <= Z.of_nat n ->
    HttpRest.send hr p attempts calls = HttpClient.send hc p attempts calls.
Proof.
  intros Hh. pose proof Hh as (_ & _ & Hst).
  induction n as [|n IH]; intros attempts calls Hn;
    rewrite rest_send_unfold, client_send_unfold;
    specialize (Hst p);
    (destruct Hst as [b r Hcfg|]; [|done]);
    rewrite <- (same_assemble hc hr b r Hh Hcfg);
    (destruct (HttpRest.assemble hr r) as [[response err|req]|msg];
     [done| |done]);
    cbn [rbind assembled_to_client];
    rewrite same_attempt, <- (same_timeout b r Hcfg),
      <- (same_retryDelay b r Hcfg);
    (destruct (Z_gt_dec attempts 0); [|done]).
  - lia.
  - pose proof (same_retryRuleF b r Hcfg) as Hrule.
    pose proof (same_view hc hr b r Hh Hcfg) as Hview.
    destruct (HttpClient.retryRuleF b) as [fc|],
             (HttpRest.retryRuleF r) as [fr|]; try done.
    simpl in Hrule. rewrite Hrule, Hview.
    destruct (fc _ _ _); [|done].
    rewrite IH by lia. done.
Qed.

(** C8.  On the same configuration and in the same world, [Send] on a
    [Rest] and [Send] on a [Client] do the same round trips, rule calls
    and sleeps, and end the same way. *)
Theorem C8_rest_is_client hc hr p :
  same_heap hc hr ->
  HttpRest.Send hr p = HttpClient.Send hc p.
Proof.
  intros Hh. unfold HttpRest.Send, HttpClient.Send.
  pose proof Hh as (_ & _ & Hst). specialize (Hst p).
  destruct Hst as [b r Hcfg|]; [|done].
  rewrite <- (same_retryAttempts b r Hcfg).
  apply (same_send hc hr p (Z.to_nat (HttpClient.retryAttempts b)) Hh). lia.
Qed.

End RestClient.


(** ** The builders of [Rest] against those of [Client] *)

Section RestClientSetters.

Lemma same_heap_dom hc hr :
  same_heap hc hr -> dom (structs hc) = dom (structs hr).
Proof.
  intros (_ & _ & Hst). apply set_eq. intros l. rewrite !elem_of_dom.
  specialize (Hst l). destruct Hst; split; intros [? ?]; by eauto.
Qed.

Lemma same_heap_lookup hc hr p :
  same_heap hc hr ->
  (exists b r, structs hc !! p = Some b /\ structs hr !! p = Some r /\
               same_config b r)
  \/ (structs hc !! p = None /\ structs hr !! p = None).
Proof.
  intros (_ & _ & Hst). specialize (Hst p).
  destruct (structs hc !! p) as [b|], (structs hr !! p) as [r|];
    inversion Hst; subst; eauto 10.
Qed.

Lemma same_heap_with_struct hc hr p b r :
  same_heap hc hr -> same_config b r ->
  same_heap (with_struct hc p b) (with_struct hr p r).
Proof.
  intros (Hs & Hl & Hst) Hcfg. split; [done|]. split; [done|].
  intros l. simpl. destruct (decide (p = l)) as [->|Hne].
  - rewrite !lookup_insert_eq. by constructor.
  - rewrite !lookup_insert_ne by done. apply Hst.
Qed.

Ltac same_replace Hh p :=
  destruct (same_heap_lookup _ _ p Hh) as [(b & r & Hb & Hr & Hcfg)|[Hb Hr]];
  unfold bind, deref, store, ret; rewrite Hb, Hr; [|done];
  cbn [structs]; rewrite Hb, Hr; split; [done|];
  apply same_heap_with_struct; [done|];
  destruct Hcfg; by split.

Lemma same_NewRest hc hr method url :
  same_heap hc hr ->
  same_run (HttpClient.NewRest method url hc) (HttpRest.NewRest method url hr).
Proof.
  intros Hh. pose proof (same_heap_dom hc hr Hh) as Hdom.
  destruct Hh as (Hs & Hl & Hst).
  unfold HttpClient.NewRest, HttpRest.NewRest, bind, make_strmap, make_lstmap,
    alloc. cbn [structs strmaps lstmaps same_run].
  rewrite <- Hs, <- Hl, <- Hdom. split; [done|].
  split; [done|]. split; [done|]. intros l. cbn [structs].
  destruct (decide (fresh (dom (structs hc)) = l)) as [->|Hne].
  - rewrite !lookup_insert_eq. constructor. by split.
  - rewrite !lookup_insert_ne by done. apply Hst.
Qed.

Lemma same_Timeout hc hr p t :
  same_heap hc hr ->
  same_run (HttpClient.Timeout p t hc) (HttpRest.Timeout p t hr).
Proof.
  intros Hh. unfold HttpClient.Timeout, HttpRest.Timeout. same_replace Hh p.
Qed.

Lemma same_Retry hc hr p a d f g :
  same_heap hc hr -> same_rule f g ->
  same_run (HttpClient.Retry p a d f hc) (HttpRest.Retry p a d g hr).
Proof.
  intros Hh Hfg. unfold HttpClient.Retry, HttpRest.Retry. same_replace Hh p.
Qed.

Lemma same_Param hc hr p m :
  same_heap hc hr ->
  same_run (HttpClient.Param p m hc) (HttpRest.Param p m hr).
Proof.
  intros Hh. unfold HttpClient.Param, HttpRest.Param. same_replace Hh p.
Qed.

Lemma same_Query hc hr p m :
  same_heap hc hr ->
  same_run (HttpClient.Query p m hc) (HttpRest.Query p m hr).
Proof.
  intros Hh. unfold HttpClient.Query, HttpRest.Query. same_replace Hh p.
Qed.

Lemma same_Header hc hr p m :
  same_heap hc hr ->
  same_run (HttpClient.Header p m hc) (HttpRest.Header p m hr).
Proof.
  intros Hh. unfold HttpClient.Header, HttpRest.Header. same_replace Hh p.
Qed.

Lemma same_Form hc hr p m :
  same_heap hc hr ->
  same_run (HttpClient.Form p m hc) (HttpRest.Form p m hr).
Proof.
  intros Hh. unfold HttpClient.Form, HttpRest.Form. same_replace Hh p.
Qed.

Lemma same_Body hc hr p v :
  same_heap hc hr ->
  same_run (HttpClient.Body p v hc) (HttpRest.Body p v hr).
Proof.
  intros Hh. unfold HttpClient.Body, HttpRest.Body. same_replace Hh p.
Qed.

Lemma same_Records hc hr p v :
  same_heap hc hr ->
  same_run (HttpClient.Records p v hc) (HttpRest.Records p v hr).
Proof.
  intros Hh. unfold HttpClient.Records, HttpRest.Records. same_replace Hh p.
Qed.

Ltac same_add Hh p field_eq :=
  destruct (same_heap_lookup _ _ p Hh) as [(b & r & Hb & Hr & Hcfg)|[Hb Hr]];
  unfold bind, deref, lst_index, lst_assign, str_assign, ret, lst_contents;
  rewrite Hb, Hr; [|done];
  rewrite <- (field_eq b r Hcfg);
  destruct Hh as (Hs & Hl & Hst); rewrite <- ?Hl, <- ?Hs;
  cbn [structs strmaps lstmaps].

Lemma same_AddParam hc hr p name v :
  same_heap hc hr ->
  same_run (HttpClient.AddParam p name v hc) (HttpRest.AddParam p name v hr).
Proof.
  intros Hh. unfold HttpClient.AddParam, HttpRest.AddParam.
  same_add Hh p same_param.
  destruct (HttpClient.param b) as [m|]; [|done].
  destruct (strmaps hc !! m) as [g|]; [|done]. by repeat split.
Qed.

Lemma same_AddQuery hc hr p name vs :
  same_heap hc hr ->
  same_run (HttpClient.AddQuery p name vs hc) (HttpRest.AddQuery p name vs hr).
Proof.
  intros Hh. unfold HttpClient.AddQuery, HttpRest.AddQuery.
  same_add Hh p same_query.
  destruct (HttpClient.query b) as [m|]; [|done].
  destruct (lstmaps hc !! m) as [g|]; [|done]. by repeat split.
Qed.

Lemma same_AddHeader hc hr p name vs :
  same_heap hc hr ->
  same_run (HttpClient.AddHeader p name vs hc)
           (HttpRest.AddHeader p name vs hr).
Proof.
  intros Hh. unfold HttpClient.AddHeader, HttpRest.AddHeader.
  same_add Hh p same_header.
  destruct (HttpClient.header b) as [m|]; [|done].
  destruct (lstmaps hc !! m) as [g|]; [|done]. by repeat split.
Qed.

Lemma same_AddForm hc hr p name vs :
  same_heap hc hr ->
  same_run (HttpClient.AddForm p name vs hc) (HttpRest.AddForm p name vs hr).
Proof.
  intros Hh. unfold HttpClient.AddForm, HttpRest.AddForm.
  same_add Hh p same_form.
  destruct (HttpClient.form b) as [m|]; [|done].
  destruct (lstmaps hc !! m) as [g|]; [|done]. by repeat split.
Qed.

(** Chaining keeps runs alike. *)
Lemma same_bind (mc : M HttpClient.Client loc) (mr : M HttpRest.Rest loc)
    kc kr hc hr :
  same_run (mc hc) (mr hr) ->
  (forall p hc' hr', same_heap hc' hr' -> same_run (kc p hc') (kr p hr')) ->
  same_run (bind mc kc hc) (bind mr kr hr).
Proof.
  intros Hm Hk. unfold bind.
  destruct (mc hc) as [[c hc']|mc'], (mr hr) as [[r hr']|mr']; try done.
  destruct Hm as [<- Hh]. by apply Hk.
Qed.

Lemma same_heap_empty : same_heap no_heap no_heap.
Proof. split; [done|]. split; [done|]. intros l. simpl. constructor. Qed.

End RestClientSetters.

Lemma same_run_heap (mc : M HttpClient.Client loc) (mr : M HttpRest.Rest loc) :
  same_run (run mc) (run mr) ->
  ptr_of mc = ptr_of mr /\ same_heap (heap_of mc) (heap_of mr).
Proof.
  unfold ptr_of, heap_of.
  destruct (run mc) as [[c hc]|mc'], (run mr) as [[r hr]|mr']; try done.
  intros _. split; [done|]. apply same_heap_empty.
Qed.

Lemma retry_chains_same :
  same_heap (heap_of retry_chain) (heap_of rest_retry_chain).
Proof.
  apply same_run_heap. unfold run, retry_chain, rest_retry_chain.
  apply same_bind.
  - unfold items_chain, rest_items_chain. apply same_bind.
    + apply same_NewRest, same_heap_empty.
    + intros p hc hr Hh. apply same_bind.
      * by apply same_AddQuery.
      * intros p' hc' hr' Hh'. by apply same_Timeout.
  - intros p hc hr Hh. by apply same_Retry.
Qed.

(** The two retry chains in the world that refuses every connection. *)
Lemma C8_witness :
  same_heap (heap_of retry_chain) (heap_of rest_retry_chain) /\
  HttpRest.Send (W := refusing_world) (heap_of rest_retry_chain) 1%positive
  = HttpClient.Send (W := refusing_world) (heap_of retry_chain) 1%positive.
Proof.
  split; [exact retry_chains_same|].
  exact (C8_rest_is_client (W := refusing_world) _ _ 1%positive
           retry_chains_same).
Defined.

(** ** The setters *)

Section Setters.
Import HttpClient.

Lemma add_append current values :
  add current values = current ++ (Sprintf_v <$> values).
Proof.
  unfold add. revert current.
  induction values as [|v vs IH]; intros current; simpl.
  - by rewrite app_nil_r.
  - rewrite IH. by rewrite <- (assoc_L (++)).
Qed.

Lemma same_but_refl fs b : same_but fs b b.
Proof. intros f _. by destruct f. Qed.



(** [Add*] on a live map: the struct stays, one entry of one map moves. *)
Lemma add_to_lst (h : Heap Client) c b (m : loc) g name vs :
  structs h !! c = Some b -> lstmaps h !! m = Some g ->
  (b' <- deref c ;;
   current <- lst_index (Some m) name ;;
   lst_assign (Some m) name (add current vs) ;;; ret c)%go h
  = Ok (c, with_lst_entry h m g name
             (default [] (g !! name) ++ (Sprintf_v <$> vs))).
Proof.
  intros Hc Hm. unfold bind, deref, lst_index, lst_assign, ret, lst_contents.
  rewrite Hc. cbn [structs strmaps lstmaps]. rewrite Hm. simpl.
  by rewrite add_append.
Qed.


End Setters.

(** ** A fresh builder *)

Section Fresh.
Import HttpClient.

(** [NewRest] allocates the struct, one string map and three list maps:
    all new, all empty, and the three list maps are three different
    maps. *)
Lemma NewRest_fresh (h : Heap Client) method url :
  exists c p q hd f,
    NewRest method url h =
      Ok (c, mkHeap
               (<[c := mkClient method url 2000000000 0 0 None (Some p)
                         (Some q) (Some hd) (Some f) [] ANil]> (structs h))
               (<[p := ∅]> (strmaps h))
               (<[f := ∅]> (<[hd := ∅]> (<[q := ∅]> (lstmaps h))))) /\
    structs h !! c = None /\ strmaps h !! p = None /\
    lstmaps h !! q = None /\ lstmaps h !! hd = None /\
    lstmaps h !! f = None /\ q <> hd /\ q <> f /\ hd <> f.
Proof.
  set (q := fresh (dom (lstmaps h))).
  set (hd := fresh (dom (<[q := ∅]> (lstmaps h)))).
  set (f := fresh (dom (<[hd := ∅]> (<[q := ∅]> (lstmaps h))))).
  exists (fresh (dom (structs h))), (fresh (dom (strmaps h))), q, hd, f.
  assert (q ∉ dom (lstmaps h)) as Hq by apply is_fresh.
  assert (hd ∉ dom (<[q := ∅]> (lstmaps h))) as Hhd by apply is_fresh.
  assert (f ∉ dom (<[hd := ∅]> (<[q := ∅]> (lstmaps h)))) as Hf
    by apply is_fresh.
  rewrite !dom_insert_L in Hf. rewrite dom_insert_L in Hhd.
  split; [reflexivity|].
  repeat split.
  - apply not_elem_of_dom, is_fresh.
  - apply not_elem_of_dom, is_fresh.
  - by apply not_elem_of_dom.
  - apply not_elem_of_dom. set_solver.
  - apply not_elem_of_dom. set_solver.
  - set_solver.
  - set_solver.
  - set_solver.
Qed.

Ltac fresh_builder h method url :=
  let c := fresh "c" in
  let p := fresh "p" in
  let q := fresh "q" in
  let hd := fresh "hd" in
  let f := fresh "f" in
  destruct (NewRest_fresh h method url)
    as (c & p & q & hd & f & Hnew & Hc & Hp & Hq & Hhd & Hf & Hqhd & Hqf & Hhdf);
  unfold bind; rewrite Hnew;
  unfold AddQuery, AddHeader, AddForm, AddParam, Query, Header, Form, Param,
    bind, deref, store, lst_index, lst_assign, str_assign, ret, lst_contents,
    str_contents;
  cbn [structs strmaps lstmaps];
  rewrite ?lookup_insert_eq; cbn [structs strmaps lstmaps param query header form
                                  set_param set_query set_header set_form];
  rewrite ?lookup_insert_eq.

Ltac lookups :=
  repeat (progress cbn [structs strmaps lstmaps param query header form
                        default from_option id
                        set_param set_query set_header set_form]
          || rewrite lookup_insert_eq
          || rewrite (lookup_insert_ne (M := gmap positive)) by done
          || rewrite lookup_empty).

(** C10.  On a fresh builder the four adding setters succeed for any name:
    the name then holds the values rendered with [%v], in the order given
    (for [AddParam], the one value), and a second call for the same name
    appends.  After the replacing setter was given a nil map, the adding
    setter panics on the assignment into the nil map. *)
Theorem C10_add_on_fresh_and_on_nil (h : Heap Client) method url name :
  (forall values, exists c h' b,
     (c <- NewRest method url ;; AddQuery c name values)%go h = Ok (c, h') /\
     structs h' !! c = Some b /\
     lst_contents h' (query b) = {[name := Sprintf_v <$> values]}) /\
  (forall values, exists c h' b,
     (c <- NewRest method url ;; AddHeader c name values)%go h = Ok (c, h') /\
     structs h' !! c = Some b /\
     lst_contents h' (header b) = {[name := Sprintf_v <$> values]}) /\
  (forall values, exists c h' b,
     (c <- NewRest method url ;; AddForm c name values)%go h = Ok (c, h') /\
     structs h' !! c = Some b /\
     lst_contents h' (form b) = {[name := Sprintf_v <$> values]}) /\
  (forall value, exists c h' b,
     (c <- NewRest method url ;; AddParam c name value)%go h = Ok (c, h') /\
     structs h' !! c = Some b /\
     str_contents h' (param b) = {[name := Sprintf_v value]}) /\
  (forall values more, exists c h' b,
     (c <- NewRest method url ;; c <- AddQuery c name values ;;
      AddQuery c name more)%go h = Ok (c, h') /\
     structs h' !! c = Some b /\
     lst_contents h' (query b)
       = {[name := (Sprintf_v <$> values) ++ (Sprintf_v <$> more)]}) /\
  (forall values,
     (c <- NewRest method url ;; c <- Query c None ;;
      AddQuery c name values)%go h = Panic nil_map_panic) /\
  (forall values,
     (c <- NewRest method url ;; c <- Header c None ;;
      AddHeader c name values)%go h = Panic nil_map_panic) /\
  (forall values,
     (c <- NewRest method url ;; c <- Form c None ;;
      AddForm c name values)%go h = Panic nil_map_panic) /\
  (forall value,
     (c <- NewRest method url ;; c <- Param c None ;;
      AddParam c name value)%go h = Panic nil_map_panic).
Proof.
  repeat apply conj.
  - intros values. fresh_builder h method url. lookups.
    do 3 eexists. split; [reflexivity|]. lookups.
    split; [reflexivity|]. lookups. by rewrite add_append, insert_empty.
  - intros values. fresh_builder h method url. lookups.
    do 3 eexists. split; [reflexivity|]. lookups.
    split; [reflexivity|]. lookups. by rewrite add_append, insert_empty.
  - intros values. fresh_builder h method url. lookups.
    do 3 eexists. split; [reflexivity|]. lookups.
    split; [reflexivity|]. lookups. by rewrite add_append, insert_empty.
  - intros value. fresh_builder h method url. lookups.
    do 3 eexists. split; [reflexivity|]. lookups.
    split; [reflexivity|]. lookups. by rewrite insert_empty.
  - intros values more. fresh_builder h method url. lookups.
    do 3 eexists. split; [reflexivity|]. lookups.
    split; [reflexivity|]. lookups.
    by rewrite !add_append, insert_insert_eq, insert_empty.
  - intros values. fresh_builder h method url. by lookups.
  - intros values. fresh_builder h method url. by lookups.
  - intros values. fresh_builder h method url. by lookups.
  - intros value. fresh_builder h method url. by lookups.
Qed.

End Fresh.

(** ** The setters on concrete builders *)



(** One map behind two fields: what [AddQuery] adds shows under [header]
    too, though no field of the struct has changed. *)
Example shared_map_aliasing :
  HttpClient.query <$> structs (heap_of shared_map_chain) !! 1%positive
    = Some (Some 4%positive) /\
  HttpClient.header <$> structs (heap_of shared_map_chain) !! 1%positive
    = Some (Some 4%positive) /\
  lst_contents (heap_of shared_map_chain) (Some 4%positive)
    = {["x" := ["a"]]}.
Proof. repeat split. Qed.

(** [AddQuery("n", 1, true, "s", nil)] on a fresh builder. *)
Example add_renders_values :
  lst_contents
    (heap_of (c <- HttpClient.NewRest "GET" "u" ;;
              HttpClient.AddQuery c "n"
                [AInt 1; ABool true; AString "s"; ANil])%go)
    (Some 1%positive)
  = {["n" := ["1"; "true"; "s"; "<nil>"]]}.
Proof. reflexivity. Qed.

(** ** The code on whole scenarios *)

Example QueryEscape_bytes :
  url_QueryEscape "b c/=&~-_.é" = "b+c%2F%3D%26~-_.%C3%A9".
Proof. reflexivity. Qed.

(** [GET https://example.test/items] with [id=42], no retry, against a
    transport that answers 200 and "ok". *)
Example scenario_plain :
  send_after ok_world items_chain
  = Ok ([EvDo (mkRequest "GET" "https://example.test/items?id=42"
                 (Some ∅) None []) 500000000],
        Ok (Some (mkResponse 200 ∅ "ok"), None)).
Proof. reflexivity. Qed.

(** The same with two retries, 10 ms apart, as long as there is an error,
    against a transport that fails twice and then answers. *)
Example scenario_retry :
  let failure := DoFail None (ErrMsg "connection refused") in
  let req := mkRequest "GET" "https://example.test/items?id=42"
               (Some ∅) None [] in
  send_after (scripted [failure; failure; answer 200 ok_bytes])
    (c <- items_chain ;; HttpClient.Retry c 2 10000000 (Some on_error))%go
  = Ok ([EvDo req 500000000;
         EvRule None (Some (ErrMsg "connection refused"));
         EvSleep 10000000;
         EvDo req 500000000;
         EvRule None (Some (ErrMsg "connection refused"));
         EvSleep 10000000;
         EvDo req 500000000],
        Ok (Some (mkResponse 200 ∅ "ok"), None)).
Proof. reflexivity. Qed.

(** A rule that says no on the first attempt: one round trip. *)
Example scenario_declined :
  send_after refusing_world
    (c <- items_chain ;;
     HttpClient.Retry c 2 10000000 (Some (fun _ _ _ => false)))%go
  = Ok ([EvDo (mkRequest "GET" "https://example.test/items?id=42"
                 (Some ∅) None []) 500000000;
         EvRule None (Some (ErrMsg "connection refused"))],
        Ok (None, Some (ErrMsg "connection refused"))).
Proof. reflexivity. Qed.

(** * More on the code *)

(** ** [send] under any rule *)

Section SendAnyRule.
Context {W : World}.
Import HttpClient.






(** X3.  A negative [retryAttempts] is taken as it is and acts as zero:
    [send] does what it does with no try left. *)
Theorem negative_attempts_act_as_zero (h : Heap Client) c attempts calls :
  attempts <= 0 ->
  send h c attempts calls = send h c 0 calls /\
  rule_calls (send h c attempts calls).1 = 0%nat /\
  sleeps (send h c attempts calls).1 = [] /\
  (transport_calls (send h c attempts calls).1 <= 1)%nat.
Proof.
  intros Hn. split; [|by apply no_retry_quiet].
  rewrite !(client_send_unfold h c _ calls).
  destruct (structs h !! c) as [b|]; [|done].
  destruct (assemble h b) as [[response err|req]|msg]; try done.
  cbn zeta. destruct (Z_gt_dec attempts 0), (Z_gt_dec 0 0); (done || lia).
Qed.



End SendAnyRule.

(** ** The request that is built *)

Section Request.
Context {W : World}.
Import HttpClient.

Lemma add_values_under (f : string -> string) name values
    (m : gmap string (list string)) :
  add_values (fun q k v => url_Values_Add q (f k) v) name values (Ok (Some m))
  = Ok (Some (if decide (values = []) then m
              else <[f name := default [] (m !! f name) ++ values]> m)).
Proof.
  revert m. induction values as [|v vs IH]; intros m; [done|].
  change (add_values (fun q k v => url_Values_Add q (f k) v) name (v :: vs)
            (Ok (Some m)))
    with (add_values (fun q k v => url_Values_Add q (f k) v) name vs
            (Ok (Some (<[f name := default [] (m !! f name) ++ [v]]> m)))).
  rewrite IH. rewrite (decide_False (P := v :: vs = [])) by done.
  destruct (decide (vs = [])) as [->|_]; [done|].
  rewrite lookup_insert_eq, insert_insert_eq. simpl.
  by rewrite <- (assoc_L (++)).
Qed.

(** The loop with names going through [f]: under every key, what was
    there, then the values of the entries whose name becomes that key. *)
Lemma add_entries_under (f : string -> string) entries
    (m : gmap string (list string)) :
  exists m',
    add_entries (fun q k v => url_Values_Add q (f k) v) entries (Some m)
      = Ok (Some m') /\
    forall K,
      default [] (m' !! K) = default [] (m !! K) ++ values_under f entries K.
Proof.
  revert m. induction entries as [|[name values] es IH]; intros m.
  - exists m. split; [done|]. intros K. by rewrite app_nil_r.
  - rewrite add_entries_cons, add_values_under. cbn [fst snd rbind].
    destruct (IH (if decide (values = []) then m
                  else <[f name := default [] (m !! f name) ++ values]> m))
      as (m' & Hrun & Hm').
    exists m'. split; [exact Hrun|]. intros K. rewrite Hm'.
    unfold values_under. csimpl.
    destruct (decide (values = [])) as [->|Hne].
    + by destruct (decide (f name = K)).
    + destruct (decide (f name = K)) as [<-|HK].
      * rewrite lookup_insert_eq. simpl. by rewrite <- (assoc_L (++)).
      * by rewrite lookup_insert_ne.
Qed.

Lemma values_under_none (f : string -> string) entries K :
  (forall e, e ∈ entries -> f e.1 <> K) -> values_under f entries K = [].
Proof.
  induction entries as [|e es IH]; intros Hno; [done|].
  unfold values_under. csimpl. rewrite decide_False by (apply Hno; left).
  apply IH. intros e' He'. apply Hno. by right.
Qed.

Lemma values_under_split (f : string -> string) l1 name vs l2 K :
  f name = K ->
  values_under f (l1 ++ (name, vs) :: l2) K
  = values_under f l1 K ++ vs ++ values_under f l2 K.
Proof.
  intros HK. unfold values_under. rewrite bind_app. csimpl.
  by rewrite decide_True.
Qed.

(** X5.  The headers of the request: under every canonical key, the values
    of all header names that canonicalise to it.  So every value added to
    the builder is on the request, in its order under its name; values of
    one name accumulate; and a name that shares its canonical key with no
    other has exactly its values there. *)
Theorem headers_all_reach_the_request (h : Heap Client) b req :
  assemble h b = Ok (Ready req) ->
  exists hd,
    req_Header req = Some hd /\
    (forall K,
       default [] (hd !! K)
       = values_under CanonicalMIMEHeaderKey
           (range_map (lst_contents h (header b))) K) /\
    (forall name vs,
       lst_contents h (header b) !! name = Some vs ->
       vs `sublist_of` default [] (hd !! CanonicalMIMEHeaderKey name)) /\
    (forall name vs,
       lst_contents h (header b) !! name = Some vs ->
       (forall name',
          is_Some (lst_contents h (header b) !! name') ->
          CanonicalMIMEHeaderKey name' = CanonicalMIMEHeaderKey name ->
          name' = name) ->
       default [] (hd !! CanonicalMIMEHeaderKey name) = vs).
Proof.
  intros Ha. rewrite assemble_stages in Ha.
  destruct (url_Parse (url b)) as [e|u]; [done|].
  destruct (http_NewRequest _ _ _) as [e|req0]; [done|].
  destruct (add_entries_under CanonicalMIMEHeaderKey
              (range_map (lst_contents h (header b))) ∅)
    as (hd & Hrun & Hhd).
  change (add_entries http_Header_Add (range_map (lst_contents h (header b)))
            (Some ∅) = Ok (Some hd)) in Hrun.
  rewrite Hrun in Ha. cbn [rbind] in Ha.
  destruct (decide _); [|done]. injection Ha as <-.
  exists hd. split; [done|].
  assert (forall K, default [] (hd !! K)
                    = values_under CanonicalMIMEHeaderKey
                        (range_map (lst_contents h (header b))) K) as Hall.
  { intros K. by rewrite Hhd, lookup_empty. }
  split; [exact Hall|]. split.
  - intros name vs Hname. rewrite Hall.
    apply elem_of_map_to_list, list_elem_of_split in Hname
      as (l1 & l2 & Hsplit).
    unfold range_map. rewrite Hsplit, values_under_split by done.
    apply sublist_inserts_l, sublist_inserts_r. done.
  - intros name vs Hname Honly. rewrite Hall.
    pose proof (NoDup_fst_map_to_list (lst_contents h (header b))) as Hnd.
    pose proof Hname as Hin.
    apply elem_of_map_to_list, list_elem_of_split in Hin
      as (l1 & l2 & Hsplit).
    unfold range_map. rewrite Hsplit in Hnd |- *.
    rewrite values_under_split by done.
    rewrite fmap_app, fmap_cons in Hnd. cbn [fst] in Hnd.
    apply NoDup_app in Hnd as (_ & Hl1 & Hnd).
    apply NoDup_cons in Hnd as [Hl2 _].
    assert (forall e, e ∈ l1 ++ (name, vs) :: l2 ->
                      is_Some (lst_contents h (header b) !! e.1)) as Hkeys.
    { intros [k x] He. rewrite <- Hsplit in He.
      apply elem_of_map_to_list in He. by exists x. }
    rewrite !values_under_none, app_nil_r; [done| |].
    + intros e He Hk. apply Hl2.
      rewrite <- (Honly e.1); [by apply list_elem_of_fmap_2| |done].
      apply Hkeys. apply elem_of_app. right. by right.
    + intros e He Hk. apply (Hl1 e.1); [by apply list_elem_of_fmap_2|].
      rewrite (Honly e.1); [by left| |done].
      apply Hkeys. apply elem_of_app. by left.
Qed.

(** X6.  What else is on the request: the builder's method (GET for the
    empty one), a token; the body, byte for byte; the URL with the encoded
    query; and no form values, ever. *)
Theorem request_carries_method_url_body (h : Heap Client) b req :
  assemble h b = Ok (Ready req) ->
  req_Method req = (if bool_decide (method b = "") then "GET" else method b) /\
  validMethod (req_Method req) = true /\
  req_Body req = body b /\
  req_Form req = None /\
  exists u, url_Parse (url b) = inr u /\
            req_URL req = built_url (lst_contents h (query b)) u.
Proof.
  intros Ha. rewrite assemble_stages in Ha.
  destruct (url_Parse (url b)) as [e|u]; [done|].
  destruct (http_NewRequest _ _ _) as [e|req0] eqn:Hreq; [done|].
  destruct (header_loop_total (range_map (lst_contents h (header b))))
    as [hd Hhd]. rewrite Hhd in Ha. cbn [rbind] in Ha.
  destruct (decide _); [|done]. injection Ha as <-. cbn.
  unfold http_NewRequest in Hreq.
  destruct (validMethod _) eqn:Hvalid; [|done]. cbn in Hreq.
  destruct (url_Parse _); [done|]. injection Hreq as <-. cbn.
  repeat split; try done. by exists u.
Qed.

End Request.

(** ** Keys without values *)

Lemma query_values_insert_nil (q : gmap string (list string)) name :
  query_values (<[name := []]> q) = query_values (delete name q).
Proof.
  unfold query_values. apply map_eq. intros k.
  rewrite !map_lookup_filter.
  destruct (decide (name = k)) as [->|Hne].
  - by rewrite lookup_insert_eq, lookup_delete_eq.
  - by rewrite lookup_insert_ne, lookup_delete_ne.
Qed.

Lemma encoded_query_any_order (q : gmap string (list string)) entries :
  entries ≡ₚ map_to_list q -> encoded_query entries = Ok (spec_query_string q).
Proof.
  intros Hperm. unfold encoded_query.
  rewrite (query_loop_any_order q) by done. cbn [rbind].
  by rewrite Encode_spec, spec_query_string_values.
Qed.

(** X7.  [AddQuery(name)] without values never changes the query string:
    the name is in the map afterwards, with what it had, but a name
    without values is not encoded. *)
Theorem add_query_without_values (h : Heap HttpClient.Client) c b m g name :
  structs h !! c = Some b ->
  HttpClient.query b = Some m ->
  lstmaps h !! m = Some g ->
  exists h',
    HttpClient.AddQuery c name [] h = Ok (c, h') /\
    is_Some (lst_contents h' (Some m) !! name) /\
    encoded_query (range_map (lst_contents h' (Some m)))
    = encoded_query (range_map (lst_contents h (Some m))).
Proof.
  intros Hc Hm Hg. eexists. split.
  { unfold HttpClient.AddQuery.
    rewrite <- (add_to_lst h c b m g name [] Hc Hg).
    unfold bind, deref. by rewrite Hc, Hm. }
  unfold with_lst_entry, lst_contents. cbn [lstmaps].
  rewrite lookup_insert_eq, Hg. cbn. rewrite app_nil_r, lookup_insert_eq.
  split; [done|].
  unfold range_map.
  rewrite (encoded_query_any_order (<[name := default [] (g !! name)]> g)),
    (encoded_query_any_order g) by done.
  f_equal.
  destruct (g !! name) as [vs|] eqn:Hname; cbn.
  - by rewrite insert_id.
  - rewrite <- (spec_query_string_values (<[name := []]> g)),
      query_values_insert_nil, spec_query_string_values.
    by rewrite delete_id.
Qed.

(** ** Chains of setters *)

Section Chains.
Import HttpClient.
Local Open Scope go_scope.

(** The shape the three adding setters on list maps share. *)
Lemma add_twice (fld : Client -> option loc) (h : Heap Client) c name vs1 vs2 :
  (c' <- (b <- deref c ;; current <- lst_index (fld b) name ;;
          lst_assign (fld b) name (add current vs1) ;;; ret c) ;;
   b <- deref c' ;; current <- lst_index (fld b) name ;;
   lst_assign (fld b) name (add current vs2) ;;; ret c') h
  = (b <- deref c ;; current <- lst_index (fld b) name ;;
     lst_assign (fld b) name (add current (vs1 ++ vs2)) ;;; ret c) h.
Proof.
  unfold bind, deref, lst_index, lst_assign, ret, lst_contents.
  destruct (structs h !! c) as [b|] eqn:Hc; [|done].
  destruct (fld b) as [m|] eqn:Hm; [|done].
  destruct (lstmaps h !! m) as [g|] eqn:Hg; [|done].
  cbn [structs strmaps lstmaps]. rewrite Hc, Hm. cbn [lstmaps].
  rewrite !lookup_insert_eq. cbn. rewrite lookup_insert_eq. cbn.
  rewrite !insert_insert_eq, !add_append, fmap_app.
  by rewrite <- (assoc_L (++)).
Qed.


(** X18.  [add] keeps what is there and appends the new values rendered
    with [%v], in the order given; adding in two steps is adding all at
    once. *)
Theorem add_keeps_and_appends current values more :
  add current values = current ++ (Sprintf_v <$> values) /\
  length (add current values) = (length current + length values)%nat /\
  add (add current values) more = add current (values ++ more).
Proof.
  rewrite !add_append. repeat split.
  - by rewrite length_app, length_fmap.
  - by rewrite fmap_app, (assoc_L (++)).
Qed.

(** X8.  Two adds under one name are one add of all the values; with
    [AddParam], the later value replaces the earlier.  This holds on every
    heap, panics included. *)
Theorem adds_accumulate (h : Heap Client) c name :
  (forall vs1 vs2,
     (c' <- AddQuery c name vs1 ;; AddQuery c' name vs2) h
     = AddQuery c name (vs1 ++ vs2) h) /\
  (forall vs1 vs2,
     (c' <- AddHeader c name vs1 ;; AddHeader c' name vs2) h
     = AddHeader c name (vs1 ++ vs2) h) /\
  (forall vs1 vs2,
     (c' <- AddForm c name vs1 ;; AddForm c' name vs2) h
     = AddForm c name (vs1 ++ vs2) h) /\
  (forall v1 v2,
     (c' <- AddParam c name v1 ;; AddParam c' name v2) h
     = AddParam c name v2 h).
Proof.
  repeat apply conj.
  - intros vs1 vs2. apply (add_twice query).
  - intros vs1 vs2. apply (add_twice header).
  - intros vs1 vs2. apply (add_twice form).
  - intros v1 v2. unfold AddParam, bind, deref, str_assign, ret.
    destruct (structs h !! c) as [b|] eqn:Hc; [|done].
    destruct (param b) as [m|] eqn:Hm; [|done].
    destruct (strmaps h !! m) as [g|] eqn:Hg; [|done].
    cbn [structs strmaps lstmaps]. rewrite Hc, Hm. cbn [strmaps].
    by rewrite lookup_insert_eq, !insert_insert_eq.
Qed.


(** X10.  Two replacing setters that write different fields can be called
    in either order. *)
Theorem settings_commute (s1 s2 : Setting) (h : Heap Client) c :
  setting_fields s1 <> setting_fields s2 ->
  (c' <- apply_setting s1 c ;; apply_setting s2 c') h
  = (c' <- apply_setting s2 c ;; apply_setting s1 c') h.
Proof.
  intros Hdiff.
  destruct s1, s2; try (by destruct Hdiff);
    unfold apply_setting, Timeout, Retry, Param, Query, Header, Form, Body,
      Records, bind, deref, store, ret;
    (destruct (structs h !! c) as [b|] eqn:Hc; [|done]);
    repeat (progress cbn [structs strmaps lstmaps] || rewrite Hc
            || rewrite lookup_insert_eq);
    by rewrite !insert_insert_eq.
Qed.

(** X11.  Of two calls of one replacing setter, the later one wins. *)
Theorem last_setting_wins (s1 s2 : Setting) (h : Heap Client) c :
  setting_fields s1 = setting_fields s2 ->
  (c' <- apply_setting s1 c ;; apply_setting s2 c') h = apply_setting s2 c h.
Proof.
  intros Hsame.
  destruct s1, s2; try discriminate Hsame;
    unfold apply_setting, Timeout, Retry, Param, Query, Header, Form, Body,
      Records, bind, deref, store, ret;
    (destruct (structs h !! c) as [b|] eqn:Hc; [|done]);
    repeat (progress cbn [structs strmaps lstmaps] || rewrite Hc
            || rewrite lookup_insert_eq);
    by rewrite !insert_insert_eq.
Qed.

End Chains.

(** ** Maps are held by reference *)

Section References.
Import HttpClient.
Local Open Scope go_scope.


Ltac steps :=
  repeat (progress cbn [structs strmaps lstmaps param query header form
                        default from_option id]
          || rewrite lookup_insert_eq
          || rewrite (lookup_insert_ne (M := gmap positive)) by done
          || rewrite lookup_empty).

(** X13.  A new builder shares nothing with what exists: creating it and
    adding to its query, headers, form and params succeeds on every heap
    and leaves every existing builder and every existing map exactly as
    it was. *)
Theorem new_builder_shares_nothing (h : Heap Client) method url
    name vs v :
  exists c h',
    (c <- NewRest method url ;;
     c <- AddQuery c name vs ;;
     c <- AddHeader c name vs ;;
     c <- AddForm c name vs ;;
     AddParam c name v) h = Ok (c, h') /\
    structs h !! c = None /\
    (forall c0 b0, structs h !! c0 = Some b0 -> structs h' !! c0 = Some b0) /\
    (forall m g, lstmaps h !! m = Some g -> lstmaps h' !! m = Some g) /\
    (forall m g, strmaps h !! m = Some g -> strmaps h' !! m = Some g).
Proof.
  destruct (NewRest_fresh h method url)
    as (c & p & q & hd & f & Hnew & Hc & Hp & Hq & Hhd & Hf
        & Hqhd & Hqf & Hhdf).
  exists c. eexists. split.
  { unfold bind at 1. rewrite Hnew.
    unfold AddQuery, AddHeader, AddForm, AddParam, bind, deref, lst_index,
      lst_assign, str_assign, ret, lst_contents.
    steps. reflexivity. }
  split; [exact Hc|]. cbn [structs strmaps lstmaps].
  repeat split.
  - intros c0 b0 Hc0. rewrite lookup_insert_ne; [done|]. congruence.
  - intros m g Hm.
    assert (m <> q /\ m <> hd /\ m <> f) as (? & ? & ?)
      by (repeat split; congruence).
    by rewrite !(lookup_insert_ne (M := gmap positive) _ _ m).
  - intros m g Hm. rewrite lookup_insert_ne by congruence.
    rewrite lookup_insert_ne; [done|]. congruence.
Qed.

(** X14.  Through a nil pointer every setter panics, and so does [Send]
    before doing anything. *)
Theorem nil_builder_panics {W : World} (h : Heap Client) c :
  structs h !! c = None ->
  (forall s, apply_setting s c h = Panic nil_deref_panic) /\
  (forall name vs, AddQuery c name vs h = Panic nil_deref_panic) /\
  (forall name vs, AddHeader c name vs h = Panic nil_deref_panic) /\
  (forall name vs, AddForm c name vs h = Panic nil_deref_panic) /\
  (forall name v, AddParam c name v h = Panic nil_deref_panic) /\
  Send h c = ([], Panic nil_deref_panic).
Proof.
  intros Hc. repeat apply conj.
  - intros s. destruct s;
      unfold apply_setting, Timeout, Retry, Param, Query, Header, Form, Body,
        Records, bind, deref; by rewrite Hc.
  - intros name vs. unfold AddQuery, bind, deref. by rewrite Hc.
  - intros name vs. unfold AddHeader, bind, deref. by rewrite Hc.
  - intros name vs. unfold AddForm, bind, deref. by rewrite Hc.
  - intros name v. unfold AddParam, bind, deref. by rewrite Hc.
  - unfold Send. by rewrite Hc.
Qed.

End References.

(** ** What [Send] depends on *)

Section Inert.
Context {W : World}.
Import HttpClient.
Local Open Scope go_scope.

(** X15.  A builder straight from [NewRest] sends once: when the URL
    parses and the method is accepted, [Send] makes one round trip with a
    timeout of two seconds, no query, no header and an empty body, and
    returns its outcome. *)
Theorem fresh_builder_sends_once (h : Heap Client) verb target u req0 :
  url_Parse target = inr u ->
  http_NewRequest verb (built_url ∅ u) [] = inr req0 ->
  exists c h',
    NewRest verb target h = Ok (c, h') /\
    Send h' c =
      ([EvDo (mkRequest (req_Method req0) (built_url ∅ u) (Some ∅) None [])
          2000000000],
       Ok (attempt 0
             (mkRequest (req_Method req0) (built_url ∅ u) (Some ∅) None [])
             2000000000)).
Proof.
  intros Hu Hreq.
  assert (req_Body req0 = []) as Hbody.
  { unfold http_NewRequest in Hreq. destruct (negb _); [done|].
    destruct (url_Parse (built_url ∅ u)); [done|]. by injection Hreq as <-. }
  destruct (NewRest_fresh h verb target)
    as (c & p & q & hd & f & Hnew & Hc & Hp & Hq & Hhd & Hf
        & Hqhd & Hqf & Hhdf).
  exists c. eexists. split; [exact Hnew|].
  set (b := mkClient verb target 2000000000 0 0 None (Some p) (Some q)
              (Some hd) (Some f) [] ANil).
  set (h' := mkHeap (<[c := b]> (structs h)) (<[p := ∅]> (strmaps h))
               (<[f := ∅]> (<[hd := ∅]> (<[q := ∅]> (lstmaps h))))).
  assert (structs h' !! c = Some b) as Hb by apply lookup_insert_eq.
  assert (assemble h' b
          = Ok (Ready (mkRequest (req_Method req0) (built_url ∅ u) (Some ∅)
                         None []))) as Ha.
  { rewrite assemble_stages. subst b h'.
    cbn [url method body query header form].
    unfold lst_contents. cbn [lstmaps].
    rewrite !(lookup_insert_ne (M := gmap positive) _ _ q) by done.
    rewrite !(lookup_insert_ne (M := gmap positive) _ _ hd) by done.
    rewrite !lookup_insert_eq. cbn [default from_option id].
    rewrite Hu, Hreq. unfold range_map. rewrite map_to_list_empty.
    cbn [add_entries foldl rbind].
    rewrite decide_True by apply map_Forall_empty.
    apply NewRequest_fresh in Hreq as (_ & _ & ->). by rewrite Hbody. }
  rewrite (Send_send h' c b Hb).
  by rewrite (send_last_try h' c b _ _ 0 Hb Ha).
Qed.



End Inert.

(** ** The builders of [Rest], once more *)

(** X17.  [NewRest] and every setter of [Rest] do to a [Rest] what their
    namesakes do to a [Client]: from heaps that hold the same
    configurations they return the same pointer on heaps that again hold
    the same configurations, or panic alike. *)
Theorem rest_builders_match hc hr p :
  same_heap hc hr ->
  (forall method url,
     same_run (HttpClient.NewRest method url hc)
              (HttpRest.NewRest method url hr)) /\
  (forall t, same_run (HttpClient.Timeout p t hc) (HttpRest.Timeout p t hr)) /\
  (forall a d f g,
     same_rule f g ->
     same_run (HttpClient.Retry p a d f hc) (HttpRest.Retry p a d g hr)) /\
  (forall m, same_run (HttpClient.Param p m hc) (HttpRest.Param p m hr)) /\
  (forall name v,
     same_run (HttpClient.AddParam p name v hc)
              (HttpRest.AddParam p name v hr)) /\
  (forall m, same_run (HttpClient.Query p m hc) (HttpRest.Query p m hr)) /\
  (forall name vs,
     same_run (HttpClient.AddQuery p name vs hc)
              (HttpRest.AddQuery p name vs hr)) /\
  (forall m, same_run (HttpClient.Header p m hc) (HttpRest.Header p m hr)) /\
  (forall name vs,
     same_run (HttpClient.AddHeader p name vs hc)
              (HttpRest.AddHeader p name vs hr)) /\
  (forall m, same_run (HttpClient.Form p m hc) (HttpRest.Form p m hr)) /\
  (forall name vs,
     same_run (HttpClient.AddForm p name vs hc)
              (HttpRest.AddForm p name vs hr)) /\
  (forall v, same_run (HttpClient.Body p v hc) (HttpRest.Body p v hr)) /\
  (forall v, same_run (HttpClient.Records p v hc) (HttpRest.Records p v hr)).
Proof.
  intros Hh. repeat apply conj; intros.
  - by apply same_NewRest.
  - by apply same_Timeout.
  - by apply same_Retry.
  - by apply same_Param.
  - by apply same_AddParam.
  - by apply same_Query.
  - by apply same_AddQuery.
  - by apply same_Header.
  - by apply same_AddHeader.
  - by apply same_Form.
  - by apply same_AddForm.
  - by apply same_Body.
  - by apply same_Records.
Qed.

(** ** The same on concrete builders *)



(** [retryAttempts = -3]. *)
Lemma negative_attempts_witness :
  HttpClient.send (W := refusing_world) (heap_of negative_chain) 1%positive
    (-3) 0
  = HttpClient.send (W := refusing_world) (heap_of negative_chain) 1%positive
      0 0 /\
  rule_calls
    (HttpClient.send (W := refusing_world) (heap_of negative_chain)
       1%positive (-3) 0).1 = 0%nat.
Proof.
  pose proof (negative_attempts_act_as_zero (W := refusing_world)
                (heap_of negative_chain) 1%positive (-3) 0 ltac:(lia))
    as (Heq & Hr & _).
  split; [exact Heq | exact Hr].
Defined.


(** [header_chain]: both values of "X" are on the request, in order. *)
Lemma headers_witness :
  HttpClient.assemble (W := ok_world) (heap_of header_chain)
    (HttpClient.mkClient "GET" "https://example.test/items" 2000000000 0 0
       None (Some 1%positive) (Some 1%positive) (Some 2%positive)
       (Some 3%positive) ok_bytes ANil)
  = Ok (HttpClient.Ready header_request) /\
  exists hd,
    req_Header header_request = Some hd /\
    ["1"; "2"] `sublist_of` default [] (hd !! "X").
Proof.
  split; [reflexivity|].
  destruct (headers_all_reach_the_request (W := ok_world)
              (heap_of header_chain)
              (HttpClient.mkClient "GET" "https://example.test/items"
                 2000000000 0 0 None (Some 1%positive) (Some 1%positive)
                 (Some 2%positive) (Some 3%positive) ok_bytes ANil)
              header_request eq_refl)
    as (hd & Hhd & _ & Hsub & _).
  exists hd. split; [exact Hhd|].
  exact (Hsub "X" ["1"; "2"] eq_refl).
Defined.

(** [header_chain]: method, body and the nil form. *)
Lemma request_witness :
  req_Method header_request = "GET" /\
  validMethod (req_Method header_request) = true /\
  req_Body header_request = ok_bytes /\
  req_Form header_request = None.
Proof.
  destruct (request_carries_method_url_body (W := ok_world)
              (heap_of header_chain)
              (HttpClient.mkClient "GET" "https://example.test/items"
                 2000000000 0 0 None (Some 1%positive) (Some 1%positive)
                 (Some 2%positive) (Some 3%positive) ok_bytes ANil)
              header_request eq_refl)
    as (Hm & Hv & Hb & Hf & _).
  repeat split; assumption.
Defined.

(** [items_chain.AddQuery("empty")]. *)
Lemma add_query_without_values_witness :
  exists h',
    HttpClient.AddQuery 1%positive "empty" [] (heap_of items_chain)
      = Ok (1%positive, h') /\
    is_Some (lst_contents h' (Some 1%positive) !! "empty") /\
    encoded_query (range_map (lst_contents h' (Some 1%positive)))
    = encoded_query
        (range_map (lst_contents (heap_of items_chain) (Some 1%positive))).
Proof.
  exact (add_query_without_values (heap_of items_chain) 1%positive
           (items_client 0 0 None) 1%positive {["id" := ["42"]]} "empty"
           eq_refl eq_refl eq_refl).
Defined.


(** [Timeout] and [Body]. *)
Lemma settings_commute_witness :
  (c' <- HttpClient.Timeout 1%positive 7 ;; HttpClient.Body c' ok_bytes)%go
    (heap_of items_chain)
  = (c' <- HttpClient.Body 1%positive ok_bytes ;; HttpClient.Timeout c' 7)%go
      (heap_of items_chain).
Proof.
  refine (settings_commute (SetTimeout 7) (SetBody ok_bytes)
            (heap_of items_chain) 1%positive _).
  discriminate.
Defined.

(** [Timeout] twice. *)
Lemma last_setting_wins_witness :
  (c' <- HttpClient.Timeout 1%positive 7 ;; HttpClient.Timeout c' 9)%go
    (heap_of items_chain)
  = HttpClient.Timeout 1%positive 9 (heap_of items_chain).
Proof.
  exact (last_setting_wins (SetTimeout 7) (SetTimeout 9)
           (heap_of items_chain) 1%positive eq_refl).
Defined.


(** Nothing is allocated at 1 in the empty heap. *)
Lemma nil_builder_panics_witness :
  HttpClient.Send (W := ok_world) no_heap 1%positive
    = ([], Panic nil_deref_panic) /\
  HttpClient.AddQuery 1%positive "x" [] no_heap = Panic nil_deref_panic.
Proof.
  pose proof (nil_builder_panics (W := ok_world) no_heap 1%positive eq_refl)
    as (_ & Hq & _ & _ & _ & Hs).
  split; [exact Hs | exact (Hq "x" [])].
Defined.

(** [NewRest("GET", "https://example.test/items")] from the empty heap. *)
Lemma fresh_builder_sends_once_witness :
  exists c h',
    HttpClient.NewRest "GET" "https://example.test/items" no_heap
      = Ok (c, h') /\
    HttpClient.Send (W := ok_world) h' c
    = ([EvDo (mkRequest "GET" "https://example.test/items" (Some ∅) None [])
          2000000000],
       Ok (Some (mkResponse 200 ∅ "ok"), None)).
Proof.
  exact (fresh_builder_sends_once (W := ok_world) no_heap "GET"
           "https://example.test/items" ("https://example.test/items", "")
           (mkRequest "GET" "https://example.test/items" (Some ∅) None [])
           eq_refl eq_refl).
Defined.


(** The two retry chains, then [Timeout]. *)
Lemma rest_builders_match_witness :
  same_run
    (HttpClient.Timeout 1%positive 7 (heap_of retry_chain))
    (HttpRest.Timeout 1%positive 7 (heap_of rest_retry_chain)).
Proof.
  pose proof (rest_builders_match (heap_of retry_chain)
                (heap_of rest_retry_chain) 1%positive retry_chains_same)
    as (_ & Ht & _).
  exact (Ht 7).
Defined.
